(** * butterfish: the session wrapper of [butterfish/butterfish.go]

    A shallow embedding of the byte-chunk adapter, the TTY sanitizer, the
    command wrapper, the lazy vector-index initialiser and the LLM client
    selection, followed by the properties proved about them.

    Go strings and byte slices are [list byte]; runes are [Z] (Go's
    [int32]); the Go library routines the program calls ([unicode/utf8],
    [unicode.IsPrint], [strings.Map], [regexp.ReplaceAllString]) are
    embedded next to the program's own functions. *)

From Stdlib Require Import Strings.String Strings.Ascii Strings.Byte.
From Stdlib Require Import ZArith List Lia Bool.
From Equations Require Import Equations.
Import ListNotations.
Local Open Scope Z_scope.

Set Implicit Arguments.

(* ===================================================================== *)
(** * Part I: the embedding                                              *)
(* ===================================================================== *)

(** ** Bytes and runes *)

Definition rune := Z.

(** A byte as the integer Go sees ([uint8]). *)
Definition b2z (b : byte) : Z := Z.of_N (Byte.to_N b).

(** Go's conversion [byte(x)]: truncation to the low eight bits. *)
Definition z2b (z : Z) : byte :=
  match Byte.of_N (Z.to_N (z mod 256)) with
  | Some b => b
  | None => x00
  end.

(** Go's conversion [uint32(r)] of an [int32]. *)
Definition uint32 (r : rune) : Z := r mod 2 ^ 32.

(** ** [unicode/utf8] *)

Module utf8.

Definition RuneError : rune := 0xFFFD.
Definition RuneSelf : Z := 0x80.
Definition MaxRune : rune := 0x10FFFF.
Definition UTFMax : nat := 4.

Definition surrogateMin : Z := 0xD800.
Definition surrogateMax : Z := 0xDFFF.

Definition t1 : Z := 0x00.
Definition tx : Z := 0x80.
Definition t2 : Z := 0xC0.
Definition t3 : Z := 0xE0.
Definition t4 : Z := 0xF0.
Definition t5 : Z := 0xF8.

Definition maskx : Z := 0x3F.
Definition mask2 : Z := 0x1F.
Definition mask3 : Z := 0x0F.
Definition mask4 : Z := 0x07.

Definition rune1Max : Z := 0x7F.
Definition rune2Max : Z := 0x7FF.
Definition rune3Max : Z := 0xFFFF.

Definition locb : Z := 0x80.
Definition hicb : Z := 0xBF.

(** Entries of the [first] table: the low three bits are the sequence
    length, the high four bits index [acceptRanges]. *)
Definition xx : Z := 0xF1.
Definition as_ : Z := 0xF0.
Definition s1 : Z := 0x02.
Definition s2 : Z := 0x13.
Definition s3 : Z := 0x03.
Definition s4 : Z := 0x23.
Definition s5 : Z := 0x34.
Definition s6 : Z := 0x04.
Definition s7 : Z := 0x44.

(** [first[b]], the table written as the ranges of its rows. *)
Definition first (b : Z) : Z :=
  if b <? 0x80 then as_
  else if b <? 0xC2 then xx
  else if b <? 0xE0 then s1
  else if b =? 0xE0 then s2
  else if b <? 0xED then s3
  else if b =? 0xED then s4
  else if b <? 0xF0 then s3
  else if b =? 0xF0 then s5
  else if b <? 0xF4 then s6
  else if b =? 0xF4 then s7
  else xx.

(** [acceptRanges[i]] as a pair (lo, hi). *)
Definition acceptRanges (i : Z) : Z * Z :=
  if i =? 0 then (locb, hicb)
  else if i =? 1 then (0xA0, hicb)
  else if i =? 2 then (locb, 0x9F)
  else if i =? 3 then (0x90, hicb)
  else if i =? 4 then (locb, 0x8F)
  else (0, 0).

(** [s[i]] for an index known to be in range. *)
Definition at_ (s : list byte) (i : nat) : Z := b2z (nth i s x00).

(** [utf8.DecodeRuneInString]: the first rune of [s] and its width in
    bytes; an invalid or short encoding gives [(RuneError, 1)], the empty
    string [(RuneError, 0)]. *)
Definition DecodeRune (s : list byte) : rune * nat :=
  let n := Z.of_nat (length s) in
  if n <? 1 then (RuneError, 0%nat)
  else
    let c0 := at_ s 0 in
    let x := first c0 in
    if x >=? as_ then
      ((if x =? xx then RuneError else c0), 1%nat)
    else
      let sz := Z.land x 7 in
      let accept := acceptRanges (Z.shiftr x 4) in
      if n <? sz then (RuneError, 1%nat)
      else
        let c1 := at_ s 1 in
        if (c1 <? fst accept) || (snd accept <? c1) then (RuneError, 1%nat)
        else if sz <=? 2 then
          (Z.lor (Z.shiftl (Z.land c0 mask2) 6) (Z.land c1 maskx), 2%nat)
        else
          let c2 := at_ s 2 in
          if (c2 <? locb) || (hicb <? c2) then (RuneError, 1%nat)
          else if sz <=? 3 then
            (Z.lor (Z.lor (Z.shiftl (Z.land c0 mask3) 12)
                          (Z.shiftl (Z.land c1 maskx) 6))
                   (Z.land c2 maskx), 3%nat)
          else
            let c3 := at_ s 3 in
            if (c3 <? locb) || (hicb <? c3) then (RuneError, 1%nat)
            else
              (Z.lor (Z.lor (Z.lor (Z.shiftl (Z.land c0 mask4) 18)
                                   (Z.shiftl (Z.land c1 maskx) 12))
                            (Z.shiftl (Z.land c2 maskx) 6))
                     (Z.land c3 maskx), 4%nat).

Definition encode3 (r : rune) : list byte :=
  [ z2b (Z.lor t3 (Z.shiftr r 12));
    z2b (Z.lor tx (Z.land (Z.shiftr r 6) maskx));
    z2b (Z.lor tx (Z.land r maskx)) ].

Definition encode4 (r : rune) : list byte :=
  [ z2b (Z.lor t4 (Z.shiftr r 18));
    z2b (Z.lor tx (Z.land (Z.shiftr r 12) maskx));
    z2b (Z.lor tx (Z.land (Z.shiftr r 6) maskx));
    z2b (Z.lor tx (Z.land r maskx)) ].

(** [utf8.AppendRune(nil, r)]: the UTF-8 encoding of [r]; a rune out of
    range or a surrogate is written as [RuneError]. *)
Definition EncodeRune (r : rune) : list byte :=
  let i := uint32 r in
  if i <=? rune1Max then [z2b r]
  else if i <=? rune2Max then
    [ z2b (Z.lor t2 (Z.shiftr r 6)); z2b (Z.lor tx (Z.land r maskx)) ]
  else if (MaxRune <? i) || ((surrogateMin <=? i) && (i <=? surrogateMax))
  then encode3 RuneError
  else if i <=? rune3Max then encode3 r
  else encode4 r.

End utf8.

(** One step of Go's [for i, c := range s] and of the regexp engine's input
    reader: a rune together with the bytes it was decoded from. *)
Record item := Item { irune : rune; ibytes : list byte }.

(** The runes of a string, in order, each with its source bytes.  An
    invalid byte is an item of its own with rune [RuneError]. *)
Equations? runes (s : list byte) : list item by wf (length s) lt :=
  runes [] := [];
  runes (b :: t) :=
    let w := snd (utf8.DecodeRune (b :: t)) in
    Item (fst (utf8.DecodeRune (b :: t))) (firstn w (b :: t))
      :: runes (skipn (Nat.pred w) t).
Proof.
  rewrite length_skipn. lia.
Qed.

Definition bytes_of (l : list item) : list byte := flat_map ibytes l.

(** ** [unicode.IsPrint] *)

Module unicode.

Definition MaxLatin1 : Z := 0xFF.

(** The [pp] bit of [properties[b]], for [b] in Latin-1: the printable
    ASCII characters (space included) and U+00A1..U+00FF without the soft
    hyphen U+00AD.  The control characters, U+007F, U+0080..U+009F and the
    no-break space U+00A0 do not carry the bit. *)
Definition latin1Print (b : Z) : bool :=
  ((0x20 <=? b) && (b <=? 0x7E))
  || ((0xA1 <=? b) && (b <=? 0xFF) && negb (b =? 0xAD)).

Section Tables.
(** [In(r, PrintRanges...)]: membership in the range tables of the
    categories L, M, N, P and S.  The tables belong to the Go
    distribution (they change with its Unicode version) and are a
    parameter of the development; they are consulted above Latin-1
    only. *)
Variable inPrintRanges : rune -> bool.

Definition IsPrint (r : rune) : bool :=
  if uint32 r <=? MaxLatin1 then latin1Print (r mod 256)
  else inPrintRanges r.
End Tables.

End unicode.

(** ** [strings.Map]

    The implementation of the current Go releases: a first loop skips the
    runes the mapping leaves alone and keeps their bytes as they are, a
    second loop maps and writes every rune from the first change on.  An
    invalid byte is decoded as [RuneError] and is never skipped, so that it
    is written as the encoding of what the mapping returns for
    [RuneError]. *)

Module strings.

Section Map.
Variable mapping : rune -> rune.

(** The first loop of [strings.Map] skips the runes the mapping leaves
    alone; an invalid byte (decoded as [RuneError] with width 1) never
    counts as left alone. *)
Definition unchanged (it : item) : bool :=
  let c := irune it in
  let r := mapping c in
  if (r =? c) && negb (c =? utf8.RuneError) then true
  else if c =? utf8.RuneError then
    negb (Nat.eqb (length (ibytes it)) 1) && (r =? c)
  else false.

(** The second loop: every rune is mapped and written, a negative
    result drops the rune. *)
Definition write_mapped (it : item) : list byte :=
  let r := mapping (irune it) in
  if r >=? 0 then
    if r <? utf8.RuneSelf then [z2b r] else utf8.EncodeRune r
  else [].

(** The position of the first rune that is not [unchanged]: the bytes
    before it, and the items from it on. *)
Fixpoint scan (l : list item) : list byte * list item :=
  match l with
  | [] => ([], [])
  | it :: rest =>
      if unchanged it then
        let (pre, tl) := scan rest in (ibytes it ++ pre, tl)
      else ([], it :: rest)
  end.

Definition Map (s : list byte) : list byte :=
  match scan (runes s) with
  | (_, []) => s
  | (pre, it :: rest) =>
      let r := mapping (irune it) in
      pre ++ (if r >=? 0 then utf8.EncodeRune r else [])
          ++ flat_map write_mapped rest
  end.
End Map.

End strings.

(** ** [regexp] *)

Module regexp.

(** The syntax the pattern needs; all repetitions are greedy. *)
Inductive re : Type :=
| Empty : re
| Class : (rune -> bool) -> re
| Cat : re -> re -> re
| Alt : re -> re -> re
| Quest : re -> re
| Star : re -> re.

(** [x{0,n}], as the regexp compiler expands it: [(x(x(x)?)?)?]. *)
Fixpoint upto (n : nat) (x : re) : re :=
  match n with
  | O => Empty
  | S k => Quest (Cat x (upto k x))
  end.

(** [x{lo,lo+extra}]. *)
Fixpoint repeat_range (lo extra : nat) (x : re) : re :=
  match lo with
  | O => upto extra x
  | S k => Cat x (repeat_range k extra x)
  end.

(** Leftmost-first matching at the head of the input, as a backtracking
    search: [k] is what remains to be matched, the result is the input
    left after the whole match.  A repetition only iterates on progress. *)
Fixpoint backtrack (r : re) (s : list item)
         (k : list item -> option (list item)) {struct r}
  : option (list item) :=
  match r with
  | Empty => k s
  | Class p =>
      match s with
      | it :: t => if p (irune it) then k t else None
      | [] => None
      end
  | Cat a b => backtrack a s (fun s' => backtrack b s' k)
  | Alt a b =>
      match backtrack a s k with
      | Some out => Some out
      | None => backtrack b s k
      end
  | Quest a =>
      match backtrack a s k with
      | Some out => Some out
      | None => k s
      end
  | Star a =>
      (fix loop (fuel : nat) (s : list item) {struct fuel}
         : option (list item) :=
         match fuel with
         | O => k s
         | S fuel' =>
             match backtrack a s
                     (fun s' => if Nat.ltb (length s') (length s)
                                then loop fuel' s' else None) with
             | Some out => Some out
             | None => k s
             end
         end) (length s) s
  end.

(** The number of runes the match starting at the head of [s] covers. *)
Definition match_len (r : re) (s : list item) : option nat :=
  match backtrack r s (fun rest => Some rest) with
  | Some rest => Some (length s - length rest)%nat
  | None => None
  end.

(** [re.ReplaceAllString(src, "")] on the decoded input: successive
    non-overlapping leftmost matches are dropped, everything else is
    copied byte for byte.  (An empty match replaces nothing.) *)
Equations? deleteAll (r : re) (s : list item) : list byte
  by wf (length s) lt :=
  deleteAll r [] := [];
  deleteAll r (it :: t) :=
    match match_len r (it :: t) with
    | Some (S n) => deleteAll r (skipn n t)
    | _ => ibytes it ++ deleteAll r t
    end.
Proof.
  rewrite length_skipn. lia.
Qed.

Definition ReplaceAllString_empty (r : re) (src : list byte) : list byte :=
  deleteAll r (runes src).

End regexp.

(** ** The program: [butterfish.go] *)

(** A character literal as a rune. *)
Definition ch (c : ascii) : rune := Z.of_N (N_of_ascii c).

Definition oneOf (l : list rune) (r : rune) : bool := existsb (Z.eqb r) l.
Definition inRange (lo hi : ascii) (r : rune) : bool :=
  (ch lo <=? r) && (r <=? ch hi).

(** *** [ansiPattern] and [ansiRegexp]

    The pattern, after the Go string literal is read (to be joined without
    the line breaks; \u001B, \u009B and \u0007 stand for the characters
    themselves):
<<
    [\u001B\u009B][[\]()#;?]*
    (?:
       (?:(?:[a-zA-Z\d]*(?:;[a-zA-Z\d]*
                        )*
          )?\u0007)
      |(?:(?:\d{1,4}(?:;\d{0,4})*
          )?[\dA-PRZcf-ntqry=><~])
    )
>>
*)
Module ansi.
Import regexp.

Definition digit : rune -> bool := inRange "0" "9".
Definition alnum (r : rune) : bool :=
  inRange "a" "z" r || inRange "A" "Z" r || digit r.

(** The class [\u001B\u009B]. *)
Definition introducer : rune -> bool := oneOf [0x1B; 0x9B].
(** The class of "[", "]", "(", ")", "#", ";" and "?". *)
Definition prefix : rune -> bool :=
  oneOf [ch "["; ch "]"; ch "("; ch ")"; ch "#"; ch ";"; ch "?"].
Definition semicolon : rune -> bool := oneOf [ch ";"].
(** The character \u0007. *)
Definition bel : rune -> bool := oneOf [0x07].
(** The class [\dA-PRZcf-ntqry=><~]. *)
Definition final (r : rune) : bool :=
  digit r || inRange "A" "P" r
  || oneOf [ch "R"; ch "Z"; ch "c"] r
  || inRange "f" "n" r
  || oneOf [ch "t"; ch "q"; ch "r"; ch "y"; ch "="; ch ">"; ch "<"; ch "~"] r.

(** The first alternative, ended by \u0007 (an OSC string). *)
Definition oscBody : re :=
  Cat (Quest (Cat (Star (Class alnum))
                  (Star (Cat (Class semicolon) (Star (Class alnum))))))
      (Class bel).

(** The second alternative, ended by a final byte (a CSI sequence). *)
Definition csiBody : re :=
  Cat (Quest (Cat (repeat_range 1 3 (Class digit))
                  (Star (Cat (Class semicolon)
                             (repeat_range 0 4 (Class digit))))))
      (Class final).

Definition ansiPattern : re :=
  Cat (Class introducer)
      (Cat (Star (Class prefix)) (Alt oscBody csiBody)).

Definition ansiRegexp : re := ansiPattern.
End ansi.

(** Strip ANSI tty control codes out of a string. *)
Definition stripANSI (str : list byte) : list byte :=
  regexp.ReplaceAllString_empty ansi.ansiRegexp str.

Section Sanitizer.
Variable inPrintRanges : rune -> bool.

(** The closure handed to [strings.Map] by [filterNonPrintable]. *)
Definition keepPrintable (r : rune) : rune :=
  if (r =? ch "010") || (r =? ch "009") then r
  else if unicode.IsPrint inPrintRanges r then r
  else -1.

(** Filter non-printable characters out of a string. *)
Definition filterNonPrintable (s : list byte) : list byte :=
  strings.Map keepPrintable s.

Definition sanitizeTTYData (data : list byte) : list byte :=
  filterNonPrintable (stripANSI data).
End Sanitizer.

(** Byte strings written as text. *)
Definition str (s : string) : list byte := list_byte_of_string s.

(** *** Errors *)

(** Go's [error] values the program meets: the sentinel [io.EOF] and
    errors made with [errors.New]; [nil] is [None] of [option error]. *)
Inductive error : Type :=
| EOF : error
| ErrorString : string -> error.

(** *** [NewByteMsg] and [readerToChannel]

    Byte slices are shared mutable arrays: the memory is the list of the
    arrays allocated so far, an address is a position in it.  All slices of
    the program start at offset 0 of their array. *)

Record slice := Slice { arr : nat; len : nat }.

(** Data type for passing byte chunks from a wrapped command around. *)
Record byteMsg := ByteMsg { Data : slice }.

Inductive chan_event : Type :=
| Send : byteMsg -> chan_event
| Close : chan_event.

Record world := World {
  mem : list (list byte);       (* the allocated arrays *)
  chan : list chan_event;       (* what was done to the channel [c] *)
  logged : list error           (* what [log.Printf] reported *)
}.

(** The array an address points to. *)
Definition array_at (m : list (list byte)) (a : nat) : list byte := nth a m [].

(** The bytes a slice denotes. *)
Definition contents (m : list (list byte)) (s : slice) : list byte :=
  firstn (len s) (array_at m (arr s)).

Fixpoint set_nth {A} (n : nat) (x : A) (l : list A) : list A :=
  match l, n with
  | [], _ => []
  | _ :: t, O => x :: t
  | y :: t, S k => y :: set_nth k x t
  end.

(** [make([]byte, n)]: a new zeroed array. *)
Definition make (n : nat) (m : list (list byte)) : slice * list (list byte) :=
  (Slice (length m) n, m ++ [repeat x00 n]).

(** [copy(dst, src)], also what a reader does to the buffer it is given:
    the first bytes of the array of [dst] are overwritten. *)
Definition store (dst : slice) (data : list byte) (m : list (list byte))
  : list (list byte) :=
  let k := Nat.min (len dst) (length data) in
  set_nth (arr dst) (firstn k data ++ skipn k (array_at m (arr dst))) m.

(** [buf[:n]] *)
Definition reslice (s : slice) (n : nat) : slice := Slice (arr s) n.

Definition NewByteMsg (data : slice) (m : list (list byte))
  : byteMsg * list (list byte) :=
  let (buf, m1) := make (len data) m in
  (ByteMsg buf, store buf (contents m data) m1).

(** [io.Reader]: [Read r n] is one call [r.Read(p)] with [len(p) = n]; it
    gives the bytes put at the start of [p], the error, and the reader
    afterwards.  The interface promises at most [len(p)] bytes. *)
Class Reader (R : Type) := {
  Read : R -> nat -> list byte * option error * R;
  Read_bound : forall r n, (length (fst (fst (Read r n))) <= n)%nat
}.

Section ReaderToChannel.
Context {R : Type} `{Reader R}.

(** The [for] loop of [readerToChannel]; [None] when the fuel does not
    reach the read that ends the loop. *)
Fixpoint readLoop (fuel : nat) (input : R) (buf : slice) (w : world)
  : option (R * world) :=
  match fuel with
  | O => None
  | S fuel' =>
      let '(data, err, input') := Read input (len buf) in
      let n := length data in
      let m1 := store buf data (mem w) in
      match err with
      | Some e =>
          let lg := match e with
                    | EOF => logged w
                    | _ => logged w ++ [e]
                    end in
          Some (input', World m1 (chan w) lg)
      | None =>
          let (msg, m2) := NewByteMsg (reslice buf n) m1 in
          readLoop fuel' input' buf (World m2 (chan w ++ [Send msg]) (logged w))
      end
  end.

(** [readerToChannel] with the size of its buffer as a parameter. *)
Definition readerToChannelWith (size : nat) (fuel : nat) (input : R)
           (w : world) : option (R * world) :=
  let (buf, m0) := make size (mem w) in
  match readLoop fuel input buf (World m0 (chan w) (logged w)) with
  | Some (input', w') =>
      Some (input', World (mem w') (chan w' ++ [Close]) (logged w'))
  | None => None
  end.

(** Given an [io.Reader] we write byte chunks to a channel. *)
Definition readerToChannel : nat -> R -> world -> option (R * world) :=
  readerToChannelWith (1024 * 16).
End ReaderToChannel.

(** A source that hands out what it holds as fast as the buffer allows and
    then reports end of stream, as [bytes.Reader] does. *)
Definition bytesRead (r : list byte) (n : nat)
  : list byte * option error * list byte :=
  match r with
  | [] => ([], Some EOF, [])
  | _ => (firstn n r, None, skipn n r)
  end.

#[export, program] Instance bytesReader : Reader (list byte) :=
  {| Read := bytesRead |}.
Next Obligation.
  destruct r as [|b r]; simpl; [lia|].
  destruct n; simpl; [lia|]. rewrite length_firstn. lia.
Qed.

(** A source that follows a script of read results (a terminal or a pipe
    delivering its input piecewise): each entry is what one call returns.
    An entry too long for the buffer is delivered in several calls; when
    the script is over the source reports end of stream. *)
Definition scriptRead (r : list (list byte * option error)) (n : nat)
  : list byte * option error * list (list byte * option error) :=
  match r with
  | [] => ([], Some EOF, [])
  | (d, e) :: rest =>
      if Nat.leb (length d) n then (d, e, rest)
      else (firstn n d, None, (skipn n d, e) :: rest)
  end.

#[export, program] Instance scriptReader
  : Reader (list (list byte * option error)) := {| Read := scriptRead |}.
Next Obligation.
  destruct r as [|[d e] rest]; simpl; [lia|].
  destruct (Nat.leb (length d) n) eqn:E; simpl.
  - apply Nat.leb_le in E. exact E.
  - rewrite length_firstn. lia.
Qed.

Definition emptyWorld : world := World [] [] [].

(** The messages sent on the channel, in order. *)
Definition sent (w : world) : list byteMsg :=
  flat_map (fun e => match e with Send m => [m] | Close => [] end) (chan w).

Definition closes (w : world) : nat :=
  List.length (filter (fun e => match e with Close => true | _ => false end)
                      (chan w)).

(** A run from [w] to [w'] that sent [msgs] and then closed the channel:
    the messages lie in arrays of their own, allocated one after the other
    behind the buffer (which sits at the first free address of [w]); read
    in the final memory they hold the chunks [ds]; the channel got the
    sends and after them one close; what was in memory before is
    untouched. *)
Definition emitted (w w' : world) (msgs : list byteMsg)
           (ds : list (list byte)) : Prop :=
  chan w' = chan w ++ map Send msgs ++ [Close]
  /\ closes w' = S (closes w)
  /\ map (fun m => arr (Data m)) msgs = seq (S (length (mem w))) (length msgs)
  /\ map (fun m => contents (mem w') (Data m)) msgs = ds
  /\ firstn (length (mem w)) (mem w') = mem w.

(** [ceil(n / b)] *)
Definition ceil_div (n b : nat) : nat := ((n + b - 1) / b)%nat.

(** The reads the loop of [readerToChannel] makes on [input] with a buffer
    of [n] bytes: the data of the reads that returned no error, in order,
    then the read that ended the loop (its data and its error) and the
    reader after it.  [None] when [fuel] reads do not reach an error. *)
Fixpoint reads {R : Type} `{Reader R} (fuel : nat) (input : R) (n : nat)
  : option (list (list byte) * (list byte * error) * R) :=
  match fuel with
  | O => None
  | S fuel' =>
      let '(data, err, input') := Read input n in
      match err with
      | Some e => Some ([], (data, e), input')
      | None =>
          match reads fuel' input' n with
          | Some (ds, last, r) => Some (data :: ds, last, r)
          | None => None
          end
      end
  end.

(** Messages whose arrays are allocated one after the other from address
    [base] on, one per chunk, each as long as its chunk. *)
Fixpoint msgs_at (base : nat) (ds : list (list byte)) : list byteMsg :=
  match ds with
  | [] => []
  | d :: rest => ByteMsg (Slice base (length d)) :: msgs_at (S base) rest
  end.

(** What [log.Printf] is asked to report for the error that ends the
    loop. *)
Definition log_of (e : error) : list error :=
  match e with EOF => [] | _ => [e] end.

(** [data] cut into pieces of [n] bytes (the last one may be shorter);
    [fuel] bounds the number of pieces. *)
Fixpoint pieces (fuel : nat) (n : nat) (data : list byte) : list (list byte) :=
  match fuel with
  | O => []
  | S fuel' =>
      match data with
      | [] => []
      | _ => firstn n data :: pieces fuel' n (skipn n data)
      end
  end.

(** A terminal that delivers three bytes in two reads. *)
Definition typedInput : list (list byte * option error) :=
  [(str "a", None); (str "bc", None)].

(** A source one of whose reads returns no byte and no error. *)
Definition idleInput : list (list byte * option error) :=
  [(str "ab", None); ([], None)].

(** The world [readerToChannel] leaves, when it returns. *)
Definition ran {R : Type} (o : option (R * world)) : option world :=
  option_map snd o.

Definition chunks_sent (w : world) : list (list byte) :=
  map (fun m => contents (mem w) (Data m)) (sent w).

(** *** [wrapCommand]

    The function is a sequence of calls into the host (process creation,
    the terminal, signals, goroutine starts, the IPC client); the embedding
    records them as a trace and keeps Go's [defer] stack, which runs in
    reverse order when the function returns and when it panics. *)

Inductive source : Type := Stdin | Pty.

(** Modelled from the spec: [wrappingMultiplexer] is in another file of
    the program.  The specification (4.5) has it write operator and peer
    chunks to the pty, write the child's output to the real terminal, relay
    a sanitized copy of that output to the peer, and cancel the session. *)
Inductive mux_event : Type :=
| WritePty : list byte -> mux_event         (* operator or peer input *)
| WriteTerminal : list byte -> mux_event    (* child output, unmodified *)
| RelayOutput : list byte -> mux_event      (* child output, to the peer *)
| Cancel : mux_event.

(** The saved mode of the real terminal ([*term.State]). *)
Definition termState := Z.

Inductive event : Type :=
| EvCommand : string -> list string -> event   (* exec.Command *)
| EvPtyStart : event                           (* pty.Start *)
| EvPtyClose : event                           (* ptmx.Close *)
| EvSignalNotify : event                       (* signal.Notify(ch, SIGWINCH) *)
| EvGoResize : event                           (* go func() { for range ch ... } *)
| EvSendWinch : event                          (* ch <- syscall.SIGWINCH *)
| EvSignalStop : event                         (* signal.Stop(ch) *)
| EvCloseSignalChan : event                    (* close(ch) *)
| EvMakeRaw : event                            (* term.MakeRaw *)
| EvRestore : termState -> event               (* term.Restore(fd, oldState) *)
| EvGoReader : source -> event                 (* go readerToChannel(...) *)
| EvGoRPCStream : event                        (* go packageRPCStream(...) *)
| EvAnnounce : string -> event                 (* client.SendWrappedCommand *)
| EvMux : mux_event -> event.                  (* inside wrappingMultiplexer *)

(** How the host answers.  [wrappingMultiplexer], [packageRPCStream] and
    the IPC client are not part of this file of the program: the
    multiplexer is a parameter, given by what it does (its events) and how
    it ends (it returns, or panics with a value); so is the client's
    [SendWrappedCommand], which returns or panics. *)
Record host := Host {
  ptyStartErr : option error;         (* the error of pty.Start *)
  makeRawErr : option error;          (* the error of term.MakeRaw *)
  rawOf : termState -> termState;     (* the raw mode term.MakeRaw sets *)
  restoreFails : bool;                (* term.Restore reports an error *)
  announcePanic : option error;       (* SendWrappedCommand panics *)
  muxEvents : list mux_event;         (* the run of the multiplexer *)
  muxPanic : option error             (* the multiplexer panics at its end *)
}.

(** The state a call of [wrapCommand] works on. *)
Record frame := Frame {
  trace : list event;                 (* calls made so far *)
  deferred : list (list event);       (* the defer stack, last one first *)
  tty : termState                     (* the mode of the real terminal *)
}.

(** How a function body ends. *)
Inductive outcome : Type :=
| Returned : option error -> outcome
| Panicked : error -> outcome.

(** A statement either goes on with a value or leaves the function. *)
Inductive step (A : Type) : Type :=
| Go : A -> step A
| Leave : outcome -> step A.
Arguments Go {A} _.
Arguments Leave {A} _.

Definition M (A : Type) : Type := frame -> step A * frame.

Definition bind {A B} (c : M A) (k : A -> M B) : M B :=
  fun f => match c f with
           | (Go a, f') => k a f'
           | (Leave o, f') => (Leave o, f')
           end.

Declare Scope go_scope.
Delimit Scope go_scope with go.
Notation "x <- c ;; k" := (bind c (fun x => k))
  (at level 61, c at next level, right associativity) : go_scope.
Notation "c ;; k" := (bind c (fun _ => k))
  (at level 61, right associativity) : go_scope.

Definition emit (e : event) : M unit :=
  fun f => (Go tt, Frame (trace f ++ [e]) (deferred f) (tty f)).
Definition defer (es : list event) : M unit :=
  fun f => (Go tt, Frame (trace f) (es :: deferred f) (tty f)).
Definition return_ {A} (e : option error) : M A :=
  fun f => (Leave (Returned e), f).
Definition panic {A} (v : error) : M A :=
  fun f => (Leave (Panicked v), f).

(** [term.MakeRaw]: on success the terminal is put in raw mode and the mode
    it had is returned. *)
Definition term_MakeRaw (h : host) : M (termState * option error) :=
  fun f =>
    match makeRawErr h with
    | Some e => (Go (0, Some e), Frame (trace f ++ [EvMakeRaw]) (deferred f) (tty f))
    | None =>
        (Go (tty f, None),
         Frame (trace f ++ [EvMakeRaw]) (deferred f) (rawOf h (tty f)))
    end.

(** The effect of one event on the terminal: only a successful
    [term.Restore] changes its mode. *)
Definition tty_after (h : host) (e : event) (t : termState) : termState :=
  match e with
  | EvRestore st => if restoreFails h then t else st
  | _ => t
  end.

(** Leaving the function: the deferred calls run, the last deferred
    first. *)
Definition run_deferred (h : host) (f : frame) : frame :=
  let es := concat (deferred f) in
  Frame (trace f ++ es) [] (fold_left (fun t e => tty_after h e t) es (tty f)).

Definition pty_Start (h : host) : M (option error) :=
  fun f => (Go (ptyStartErr h),
            Frame (trace f ++ [EvPtyStart]) (deferred f) (tty f)).

(** Modelled from the spec: [client.SendWrappedCommand] sends the
    announcement (4.4, Announce); it gives no result that [wrapCommand]
    looks at. *)
Definition SendWrappedCommand (h : host) (cmd : string) : M unit :=
  fun f =>
    let f' := Frame (trace f ++ [EvAnnounce cmd]) (deferred f) (tty f) in
    match announcePanic h with
    | Some v => (Leave (Panicked v), f')
    | None => (Go tt, f')
    end.

(** Modelled from the spec: the run of the multiplexer, as the host gives
    it. *)
Definition wrappingMultiplexer (h : host) : M unit :=
  fun f =>
    let f' := Frame (trace f ++ map EvMux (muxEvents h)) (deferred f) (tty f) in
    match muxPanic h with
    | Some v => (Leave (Panicked v), f')
    | None => (Go tt, f')
    end.

(** [strings.Join(command, " ")] *)
Definition join (command : list string) : string := String.concat " " command.

Local Open Scope go_scope.

Definition wrapCommand_body (h : host) (command : list string) : M unit :=
  match command with
  | [] =>
      (* command[0]: index out of range *)
      panic (ErrorString "runtime error: index out of range [0] with length 0")
  | c0 :: args =>
      emit (EvCommand c0 args) ;;
      err <- pty_Start h ;;
      match err with
      | Some e => return_ (Some e)
      | None =>
          defer [EvPtyClose] ;;
          emit EvSignalNotify ;;
          emit EvGoResize ;;
          emit EvSendWinch ;;
          defer [EvSignalStop; EvCloseSignalChan] ;;
          r <- term_MakeRaw h ;;
          let (oldState, err) := (r : termState * option error) in
          match err with
          | Some e => panic e
          | None =>
              defer [EvRestore oldState] ;;
              emit (EvGoReader Stdin) ;;
              emit (EvGoReader Pty) ;;
              emit EvGoRPCStream ;;
              SendWrappedCommand h (join command) ;;
              wrappingMultiplexer h ;;
              return_ None
          end
      end
  end.

Local Close Scope go_scope.

(** A call of [wrapCommand] on a terminal in mode [t0]: how it ends, and
    the frame once the deferred calls have run. *)
Definition wrapCommand (h : host) (command : list string) (t0 : termState)
  : outcome * frame :=
  match wrapCommand_body h command (Frame [] [] t0) with
  | (Leave o, f) => (o, run_deferred h f)
  | (Go _, f) => (Returned None, run_deferred h f)
  end.

(** The calls made up to the request for raw mode. *)
Definition prologue (c0 : string) (args : list string) : list event :=
  [EvCommand c0 args; EvPtyStart; EvSignalNotify; EvGoResize; EvSendWinch;
   EvMakeRaw].

(** The calls that start the session. *)
Definition startup (c0 : string) (args : list string) : list event :=
  [EvGoReader Stdin; EvGoReader Pty; EvGoRPCStream;
   EvAnnounce (join (c0 :: args))].

(** The deferred calls of a session that entered raw mode on a terminal in
    mode [t0]. *)
Definition epilogue (t0 : termState) : list event :=
  [EvRestore t0; EvSignalStop; EvCloseSignalChan; EvPtyClose].

(** The mode of the terminal after the deferred calls of such a session. *)
Definition restored (h : host) (t0 : termState) : termState :=
  if restoreFails h then rawOf h t0 else t0.

Definition count_restores (tr : list event) : nat :=
  List.length (filter (fun e => match e with EvRestore _ => true | _ => false end) tr).

Definition is_relay (e : event) : bool :=
  match e with EvMux (RelayOutput _) => true | _ => false end.

Definition no_relay (l : list event) : Prop :=
  Forall (fun e => is_relay e = false) l.

(** A host whose terminal refuses raw mode (standard input is not a
    terminal). *)
Definition hostNoTTY : host :=
  Host None (Some (ErrorString "inappropriate ioctl for device"))
       (fun t => t) false None [WriteTerminal (str "hi")] None.

(** A host on which everything works; the child prints and the sanitized
    copy is relayed. *)
Definition hostOK : host :=
  Host None None (fun t => Z.land t 0xF0) false None
       [WriteTerminal (str "hi"); RelayOutput (str "hi")] None.

(** The same host with a multiplexer that panics. *)
Definition hostMuxPanics : host :=
  Host None None (fun t => Z.land t 0xF0) false None
       [WriteTerminal (str "hi")] (Some (ErrorString "send on closed channel")).


(** *** [initVectorIndex]

    The index ([embedding.NewDiskCachedEmbeddingIndex] and its methods) is
    another package: its state and its operations are parameters. *)

Section VectorIndex.
Variable Index : Type.
(** [embedding.NewDiskCachedEmbeddingIndex(this, out)] *)
Variable newIndex : Index.
(** [index.SetOutput(this.Out)] *)
Variable setOutput : Index -> Index.
(** [index.LoadPaths(ctx, paths)]: the index afterwards and the error. *)
Variable loadPaths : Index -> list string -> Index * option error.

(** Calls into the embedding package, as they happen. *)
Inductive index_call : Type :=
| CallNewIndex : index_call
| CallSetOutput : index_call
| CallLoadPaths : list string -> index_call.

(** The fields of [ButterfishCtx] (and of its [Config]) the function
    reads and writes; [VectorIndex] is [None] for a nil interface. *)
Record ButterfishCtx := Ctx {
  Verbose : bool;
  InConsoleMode : bool;
  VectorIndex : option Index;
  calls : list index_call
}.

(** Ensure we have a vector index object, idempotent. *)
Definition initVectorIndex (this : ButterfishCtx) (pathsToLoad : list string)
  : option error * ButterfishCtx :=
  match VectorIndex this with
  | Some _ => (None, this)
  | None =>
      let index := newIndex in
      let calls1 := calls this ++ [CallNewIndex] in
      let (index, calls2) :=
        if Verbose this then (setOutput index, calls1 ++ [CallSetOutput])
        else (index, calls1) in
      (* this.VectorIndex = index *)
      let this1 := Ctx (Verbose this) (InConsoleMode this) (Some index) calls2 in
      if negb (InConsoleMode this1) then
        let pathsToLoad :=
          match pathsToLoad with
          | [] => ["."%string]
          | _ => pathsToLoad
          end in
        let (index', err) := loadPaths index pathsToLoad in
        let this2 := Ctx (Verbose this1) (InConsoleMode this1) (Some index')
                         (calls this1 ++ [CallLoadPaths pathsToLoad]) in
        match err with
        | Some e => (Some e, this2)
        | None => (None, this2)
        end
      else (None, this1)
  end.

(** Further calls, one for each argument of the list; the errors they
    return and the context at the end. *)
Fixpoint initAgain (this : ButterfishCtx) (args : list (list string))
  : list (option error) * ButterfishCtx :=
  match args with
  | [] => ([], this)
  | p :: rest =>
      let (e, this1) := initVectorIndex this p in
      let (es, this2) := initAgain this1 rest in
      (e :: es, this2)
  end.
(** The index as [initVectorIndex] has it when it calls [LoadPaths]. *)
Definition preparedIndex (this : ButterfishCtx) : Index :=
  if Verbose this then setOutput newIndex else newIndex.

(** The paths [initVectorIndex] loads: the current directory when none are
    given. *)
Definition pathsOrCwd (paths : list string) : list string :=
  match paths with [] => ["."%string] | _ => paths end.
End VectorIndex.

(** An index that only remembers what it was asked to load, and whose
    [LoadPaths] fails on a path that does not exist. *)
Definition loadOrFail (idx : list string) (paths : list string)
  : list string * option error :=
  if existsb (String.eqb "/nonexistent") paths
  then (idx, Some (ErrorString "no such file or directory"))
  else (idx ++ paths, None).

(** *** [initLLM] *)

(** The implementations of the [LLM] interface: the client [NewGPT] builds
    and whatever client the configuration supplies. *)
Inductive LLM : Type :=
| GPT : string -> bool -> LLM        (* NewGPT(token, verbose, writer) *)
| Supplied : nat -> LLM.

(** The fields of [ButterfishConfig] that [initLLM] reads. *)
Record ButterfishConfig := Config {
  cfgVerbose : bool;
  OpenAIToken : string;
  LLMClient : option LLM
}.

Definition is_nil {A} (x : option A) : bool :=
  match x with None => true | Some _ => false end.
Definition is_empty (s : string) : bool := String.eqb s "".

Definition initLLM (config : ButterfishConfig) : option LLM * option error :=
  if is_empty (OpenAIToken config) && negb (is_nil (LLMClient config)) then
    (None, Some (ErrorString "Must provide either an OpenAI Token or an LLM client."))
  else if negb (is_empty (OpenAIToken config)) && negb (is_nil (LLMClient config)) then
    (None, Some (ErrorString "Must provide either an OpenAI Token or an LLM client, not both."))
  else if negb (is_empty (OpenAIToken config)) then
    (Some (GPT (OpenAIToken config) (cfgVerbose config)), None)
  else
    (LLMClient config, None).

(** The number of client sources a configuration provides. *)
Definition sources (config : ButterfishConfig) : nat :=
  ((if is_empty (OpenAIToken config) then 0 else 1)
   + (if is_nil (LLMClient config) then 0 else 1))%nat.

(** ** Vocabulary of the properties of the sanitizer *)

(** A Unicode scalar value: in range and not a surrogate. *)
Definition valid_rune (r : rune) : Prop :=
  0 <= r < 0xD800 \/ 0xDFFF < r <= 0x10FFFF.

(** The shapes of a decoding step: an ASCII byte, a well-formed sequence of
    two, three or four bytes with the rune it stands for, or an invalid
    byte. *)
Inductive decoded : list byte -> rune -> nat -> Prop :=
| dec1 s0 t : b2z s0 < 0x80 -> decoded (s0 :: t) (b2z s0) 1
| dec2 s0 s1 t :
    0xC2 <= b2z s0 <= 0xDF -> 0x80 <= b2z s1 <= 0xBF ->
    decoded (s0 :: s1 :: t) ((b2z s0 mod 32) * 64 + b2z s1 mod 64) 2
| dec3 s0 s1 s2 t :
    0xE0 <= b2z s0 <= 0xEF -> 0x80 <= b2z s1 <= 0xBF ->
    (b2z s0 = 0xE0 -> 0xA0 <= b2z s1) -> (b2z s0 = 0xED -> b2z s1 <= 0x9F) ->
    0x80 <= b2z s2 <= 0xBF ->
    decoded (s0 :: s1 :: s2 :: t)
            ((b2z s0 mod 16) * 4096 + (b2z s1 mod 64) * 64 + b2z s2 mod 64) 3
| dec4 s0 s1 s2 s3 t :
    0xF0 <= b2z s0 <= 0xF4 -> 0x80 <= b2z s1 <= 0xBF ->
    (b2z s0 = 0xF0 -> 0x90 <= b2z s1) -> (b2z s0 = 0xF4 -> b2z s1 <= 0x8F) ->
    0x80 <= b2z s2 <= 0xBF -> 0x80 <= b2z s3 <= 0xBF ->
    decoded (s0 :: s1 :: s2 :: s3 :: t)
            ((b2z s0 mod 8) * 262144 + (b2z s1 mod 64) * 4096
             + (b2z s2 mod 64) * 64 + b2z s3 mod 64) 4
| decbad s0 t : decoded (s0 :: t) utf8.RuneError 1.

(** An item as [runes] makes them: a valid rune, with its encoding as
    source bytes unless it stands for one invalid byte. *)
Definition item_ok (it : item) : Prop :=
  valid_rune (irune it)
  /\ ((irune it = utf8.RuneError /\ length (ibytes it) = 1%nat)
      \/ ibytes it = utf8.EncodeRune (irune it)).

(** The item of a rune in a well-formed string. *)
Definition encoded (r : rune) : item := Item r (utf8.EncodeRune r).

Section Kept.
Variable inPrintRanges : rune -> bool.

(** The runes [filterNonPrintable] keeps: newline, tab, and the printable
    ones. *)
Definition kept (r : rune) : bool :=
  (r =? 10) || (r =? 9) || unicode.IsPrint inPrintRanges r.

(** What [filterNonPrintable] writes for an item. *)
Definition written (it : item) : list byte :=
  if kept (irune it) then utf8.EncodeRune (irune it) else [].
(** The runes that come out: those of the input that are kept. *)
Definition kept_runes (s : list byte) : list rune :=
  filter kept (map irune (runes s)).
End Kept.

(** Tables that list the replacement character only. *)
Definition onlyReplacement (r : rune) : bool := r =? utf8.RuneError.

(** Printable ASCII, newline or tab. *)
Definition plain (b : byte) : Prop :=
  b2z b = 10 \/ b2z b = 9 \/ 0x20 <= b2z b <= 0x7E.

(** ** More of the program *)

(** *** [RunConsoleClient]

    [runIPCClient] is in another file of the program: the error it returns
    is a parameter.  The context and its cancel function are handed on to
    [wrapCommand], which passes them to the multiplexer. *)
Definition RunConsoleClient (ipcErr : option error) (h : host)
           (args : list string) (t0 : termState) : outcome * frame :=
  match ipcErr with
  | Some err => (Returned (Some err), Frame [] [] t0)
  | None => wrapCommand h args t0
  end.

(** *** Styles and the default configuration *)

(** [lipgloss.NewStyle().Foreground(lipgloss.Color(c))]: the styles of the
    program differ by their foreground colour only. *)
Inductive Style : Type :=
| NewStyleForeground : string -> Style.

Module scheme.
Record ColorScheme := Scheme {
  Foreground : string;   (* neutral foreground color *)
  Background : string;
  Error : string;        (* should be reddish *)
  Color1 : string;       (* should be greenish *)
  Color2 : string;
  Color3 : string;
  Color4 : string;
  Color5 : string;
  Color6 : string;
  Grey : string
}.
End scheme.

(** Gruvbox Colorscheme *)
Definition GruvboxDark : scheme.ColorScheme :=
  scheme.Scheme "#ebdbb2" "#282828" "#fb4934" "#b8bb26" "#fabd2f" "#83a598"
                "#d3869b" "#8ec07c" "#fe8019" "#928374".

Definition GruvboxLight : scheme.ColorScheme :=
  scheme.Scheme "#7C6F64" "#FBF1C7" "#CC241D" "#98971A" "#D79921" "#458588"
                "#B16286" "#689D6A" "#D65D0E" "#928374".

Module style.
Record styles := Styles_of {
  Question : Style;
  Answer : Style;
  Go : Style;
  Summarize : Style;
  Highlight : Style;
  Prompt : Style;
  Error : Style;
  Foreground : Style;
  Grey : Style
}.
End style.

(** The argument is the scheme the pointer of the source points to (its
    one caller passes the address of [GruvboxDark]). *)
Definition ColorSchemeToStyles (colorScheme : scheme.ColorScheme)
  : style.styles :=
  {| style.Question := NewStyleForeground (scheme.Color4 colorScheme);
     style.Answer := NewStyleForeground (scheme.Color2 colorScheme);
     style.Go := NewStyleForeground (scheme.Color5 colorScheme);
     style.Highlight := NewStyleForeground (scheme.Color2 colorScheme);
     style.Summarize := NewStyleForeground (scheme.Color2 colorScheme);
     style.Prompt := NewStyleForeground (scheme.Color4 colorScheme);
     style.Error := NewStyleForeground (scheme.Error colorScheme);
     style.Foreground := NewStyleForeground (scheme.Foreground colorScheme);
     style.Grey := NewStyleForeground (scheme.Grey colorScheme) |}.

(** *** Prompt libraries *)

(** What [prompt.NewPromptLibrary(path, verbose, writer)] makes. *)
Record DiskPromptLibrary := DiskLib {
  libPath : string;
  libVerbose : bool
}.

(** The values of the [PromptLibrary] interface: a
    [*prompt.DiskPromptLibrary] (a pointer, which may be nil inside an
    interface value that is not) and whatever library a configuration
    supplies.  The nil interface is [None] of [option PromptLibrary]. *)
Inductive PromptLibrary : Type :=
| DiskLibrary : option DiskPromptLibrary -> PromptLibrary
| SuppliedLibrary : nat -> PromptLibrary.

(** *** The configuration and the context, in full *)

(** [ButterfishConfig] with all its fields; [Verbose], [OpenAIToken] and
    [LLMClient] are the record of [initLLM] above.  [ColorScheme] and
    [Styles] are pointers: [None] is nil. *)
Record FullConfig := FullCfg {
  llmConfig : ButterfishConfig;
  cfgColorScheme : option scheme.ColorScheme;
  Styles : option style.styles;
  PromptLibraryPath : string;
  cfgPromptLibrary : option PromptLibrary
}.

Definition MakeButterfishConfig : FullConfig :=
  let colorScheme := GruvboxDark in
  {| llmConfig := Config false "" None;
     cfgColorScheme := Some colorScheme;
     Styles := Some (ColorSchemeToStyles colorScheme);
     PromptLibraryPath := "";
     cfgPromptLibrary := None |}.

(** [os.Stdout] or the console program. *)
Inductive Writer : Type := Stdout | Console.

(** The fields of [ButterfishCtx] that [NewButterfish] and [RunConsole]
    set, [ClientController] by whether it is set; the others
    ([VectorIndex], [CommandRegister]) keep their zero value. *)
Record Butterfish := Bfish {
  ctxConfig : FullConfig;
  ctxInConsoleMode : bool;
  ctxPromptLibrary : option PromptLibrary;
  ctxLLMClient : option LLM;
  ctxOut : Writer;
  ctxClientController : bool
}.

(** The context as [initVectorIndex] sees it: the index is nil in a
    context that was just made. *)
Definition indexFields {Index : Type} (this : Butterfish)
  : ButterfishCtx Index :=
  Ctx (cfgVerbose (llmConfig (ctxConfig this))) (ctxInConsoleMode this)
      None [].

(** *** Calls, results and panics *)

(** Calls out of this file of the program, as they happen. *)
Inductive setup_call : Type :=
| CallWithCancel : setup_call                       (* context.WithCancel *)
| CallNewConsoleProgram : setup_call                (* console.NewConsoleProgram *)
| CallSetStyles : setup_call                        (* model.SetStyles, in configCallback *)
| CallNewGPT : string -> bool -> setup_call         (* NewGPT *)
| CallRunIPCServer : setup_call                     (* RunIPCServer *)
| CallExpand : string -> setup_call                 (* homedir.Expand *)
| CallNewPromptLibrary : string -> bool -> setup_call
| CallLibraryFileExists : setup_call
| CallLoad : setup_call
| CallReplacePrompts : setup_call                   (* with prompt.DefaultPrompts *)
| CallSave : setup_call
| CallFprintf : string -> setup_call                (* the text written *)
| CallServerMultiplexer : Butterfish -> setup_call.

(** What the machine answers.  [console.NewConsoleProgram] is in another
    package: whether it runs the configuration callback itself is a
    parameter. *)
Record machine := Machine {
  homedir_Expand : string -> string * option error;
  LibraryFileExists : string -> bool;    (* by the path of the library *)
  Load : string -> option error;
  configuresAtOnce : bool
}.

(** How a call ends: with its results, or in a panic. *)
Inductive ending (R : Type) : Type :=
| Results : R -> ending R
| Panics : error -> ending R.
Arguments Results {R} _.
Arguments Panics {R} _.

(** A function of the program: from the calls made so far to its ending
    and the calls made then. *)
Definition Fn (R : Type) : Type :=
  list setup_call -> ending R * list setup_call.

(** A statement of a function with results [R]: it goes on with a value or
    ends the function. *)
Inductive flow (R A : Type) : Type :=
| Next : A -> flow R A
| Ends : ending R -> flow R A.
Arguments Next {R A} _.
Arguments Ends {R A} _.

Definition Proc (R A : Type) : Type :=
  list setup_call -> flow R A * list setup_call.

Definition next {R A} (a : A) : Proc R A := fun tr => (Next a, tr).

Definition andThen {R A B} (c : Proc R A) (k : A -> Proc R B) : Proc R B :=
  fun tr => match c tr with
            | (Next a, tr') => k a tr'
            | (Ends e, tr') => (Ends e, tr')
            end.

Declare Scope setup_scope.
Delimit Scope setup_scope with setup.
Notation "x <- c ;; k" := (andThen c (fun x => k))
  (at level 61, c at next level, right associativity) : setup_scope.
Notation "c ;; k" := (andThen c (fun _ => k))
  (at level 61, right associativity) : setup_scope.

Definition did {R} (c : setup_call) : Proc R unit :=
  fun tr => (Next tt, tr ++ [c]).

Definition result {R A} (r : R) : Proc R A :=
  fun tr => (Ends (Results r), tr).

Definition nilDereference : error :=
  ErrorString "runtime error: invalid memory address or nil pointer dereference".

(** Following a pointer: a nil pointer panics. *)
Definition deref {R A} (p : option A) : Proc R A :=
  fun tr => match p with
            | Some a => (Next a, tr)
            | None => (Ends (Panics nilDereference), tr)
            end.

(** Calling a function: its panic is the caller's. *)
Definition call {R A} (f : Fn A) : Proc R A :=
  fun tr => match f tr with
            | (Results a, tr') => (Next a, tr')
            | (Panics v, tr') => (Ends (Panics v), tr')
            end.

Definition func {R} (body : Proc R R) : Fn R :=
  fun tr => match body tr with
            | (Next r, tr') => (Results r, tr')
            | (Ends e, tr') => (e, tr')
            end.

Local Open Scope setup_scope.

(** *** [initLLM], on the configuration in full

    The function as above, with the use it makes of [config.Styles] in the
    branch that builds the GPT client. *)
Definition initLLM_styled (config : FullConfig)
  : Fn (option LLM * option error) :=
  let c := llmConfig config in
  func (
    if is_empty (OpenAIToken c) && negb (is_nil (LLMClient c)) then
      result (None, Some (ErrorString
        "Must provide either an OpenAI Token or an LLM client."))
    else if negb (is_empty (OpenAIToken c)) && negb (is_nil (LLMClient c)) then
      result (None, Some (ErrorString
        "Must provide either an OpenAI Token or an LLM client, not both."))
    else if negb (is_empty (OpenAIToken c)) then
      _ <- deref (Styles config) ;;            (* config.Styles.Grey *)
      did (CallNewGPT (OpenAIToken c) (cfgVerbose c)) ;;
      result (Some (GPT (OpenAIToken c) (cfgVerbose c)), None)
    else
      result (LLMClient c, None)).

(** *** [NewDiskPromptLibrary]

    Let's initialize our prompts. If we have a prompt library file, we'll
    load it.  Either way, we'll then add the default prompts to the
    library, then we save the library at the same path.  What [Save]
    returns is not looked at. *)
Definition newline : string := String (Ascii.ascii_of_nat 10) EmptyString.

Definition wroteLibrary (path : string) : string :=
  String.append "Wrote prompt library at " (String.append path newline).

Definition NewDiskPromptLibrary (m : machine) (path : string) (verbose : bool)
  : Fn (option DiskPromptLibrary * option error) :=
  func (
    did (CallNewPromptLibrary path verbose) ;;
    let promptLibrary := DiskLib path verbose in
    did CallLibraryFileExists ;;
    loaded <- (if LibraryFileExists m path then
                 did CallLoad ;;
                 match Load m path with
                 | Some err => result (None, Some err)
                 | None => next true
                 end
               else next false) ;;
    did CallReplacePrompts ;;
    did CallSave ;;
    (if negb loaded then did (CallFprintf (wroteLibrary path))
     else next tt) ;;
    result (Some promptLibrary, None)).

(** *** [initPromptLibrary] *)
Definition initPromptLibrary (m : machine) (config : FullConfig)
  : Fn (option PromptLibrary * option error) :=
  func (
    _ <- deref (Styles config) ;;              (* config.Styles.Grey *)
    match cfgPromptLibrary config with
    | Some l => result (Some l, None)
    | None =>
        did (CallExpand (PromptLibraryPath config)) ;;
        let (promptPath, err) := homedir_Expand m (PromptLibraryPath config) in
        match err with
        | Some e => result (None, Some e)
        | None =>
            r <- call (NewDiskPromptLibrary m promptPath
                         (cfgVerbose (llmConfig config))) ;;
            (* the pointer becomes an interface value, nil or not *)
            result (Some (DiskLibrary (fst r)), snd r)
        end
    end).

(** *** [NewButterfish] *)
Definition NewButterfish (m : machine) (config : FullConfig)
  : Fn (option Butterfish * option error) :=
  func (
    r <- call (initLLM_styled config) ;;
    let (llmClient, err) := (r : option LLM * option error) in
    match err with
    | Some e => result (None, Some e)
    | None =>
        r <- call (initPromptLibrary m config) ;;
        let (promptLibrary, err) :=
          (r : option PromptLibrary * option error) in
        match err with
        | Some e => result (None, Some e)
        | None =>
            did CallWithCancel ;;
            result (Some (Bfish config false promptLibrary llmClient
                                Stdout false), None)
        end
    end).

(** *** [RunConsole]

    [serverMultiplexer] blocks; the model is of a run in which it
    returns. *)
Definition RunConsole (m : machine) (config : FullConfig)
  : Fn (option error) :=
  func (
    did CallWithCancel ;;
    did CallNewConsoleProgram ;;
    (if configuresAtOnce m then
       _ <- deref (Styles config) ;;           (* config.Styles.Prompt *)
       did CallSetStyles
     else next tt) ;;
    r <- call (initLLM_styled config) ;;
    let (llmClient, err) := (r : option LLM * option error) in
    match err with
    | Some e => result (Some e)
    | None =>
        did CallRunIPCServer ;;
        r <- call (initPromptLibrary m config) ;;
        let (promptLibrary, err) :=
          (r : option PromptLibrary * option error) in
        match err with
        | Some e => result (Some e)
        | None =>
            let butterfishCtx :=
              Bfish config true promptLibrary llmClient Console true in
            did (CallServerMultiplexer butterfishCtx) ;;
            result None
        end
    end).

Local Close Scope setup_scope.

(** *** [CalculateEmbeddings]

    [Embeddings] is the method of the client, whatever it answers; a
    method call on the nil interface panics. *)
Definition CalculateEmbeddings {V : Type}
           (Embeddings : LLM -> list string -> V * option error)
           (this : Butterfish) (content : list string)
  : ending (V * option error) :=
  match ctxLLMClient this with
  | None => Panics nilDereference
  | Some client => Results (Embeddings client content)
  end.

(** A machine with a home directory and no prompt library yet. *)
Definition freshMachine : machine :=
  Machine (fun p => (String.append "/home/u/" p, None))
          (fun _ => false) (fun _ => None) true.

(** A machine whose prompt library file is there and cannot be read. *)
Definition brokenLibrary : machine :=
  Machine (fun p => (p, None)) (fun _ => true)
          (fun _ => Some (ErrorString "yaml: unmarshal errors")) false.

(** *** Further examples *)

(** A pipe that breaks: two bytes, then two bytes together with an
    error. *)
Definition brokenPipe : list (list byte * option error) :=
  [(str "ab", None); (str "cd", Some (ErrorString "input/output error"))].

(** A source that never ends and never fails, as [/dev/zero]: every read
    fills the buffer with zero bytes. *)
#[export, program] Instance zeroReader : Reader unit :=
  {| Read := fun _ n => (repeat x00 n, None, tt) |}.
Next Obligation. rewrite repeat_length. lia. Qed.

(** The item of an ASCII byte. *)
Definition ascii_item (b : byte) : item := Item (b2z b) [b].

(** A host with no pseudo-terminal to give. *)
Definition hostNoPty : host :=
  Host (Some (ErrorString "no pty available")) None (fun t => t) false None
       [] None.

(** A configuration with styles, no client and no library of its own. *)
Definition plainConfig (token : string) : FullConfig :=
  FullCfg (Config false token None) (Some GruvboxLight)
          (Some (ColorSchemeToStyles GruvboxLight)) "~/prompts.yaml" None.

(* ===================================================================== *)
(** * Part II: properties                                                *)
(* ===================================================================== *)

(** ** [initLLM] *)

(** What [initLLM] answers, by the two sources of the configuration. *)
Lemma initLLM_cases (config : ButterfishConfig) :
  match is_empty (OpenAIToken config), LLMClient config with
  | true, None => initLLM config = (None, None)
  | true, Some _ => exists msg, initLLM config = (None, Some (ErrorString msg))
  | false, None =>
      initLLM config = (Some (GPT (OpenAIToken config) (cfgVerbose config)), None)
  | false, Some _ => exists msg, initLLM config = (None, Some (ErrorString msg))
  end.
Proof.
  unfold initLLM.
  destruct (is_empty (OpenAIToken config)), (LLMClient config); simpl;
    eauto.
Qed.

(** C1.  [initLLM] does not do what its own error messages announce.  With
    no source at all (empty token, nil client) it succeeds and returns a nil
    client; with the externally supplied client as the only source it fails
    with the error written for the case that neither is given.  Only the
    token alone and both together behave as described. *)
Theorem initLLM_wrong_on_zero_and_on_client_only :
  (forall v, sources (Config v "" None) = 0%nat
             /\ initLLM (Config v "" None) = (None, None))
  /\ (forall v c,
         sources (Config v "" (Some c)) = 1%nat
         /\ initLLM (Config v "" (Some c))
            = (None, Some (ErrorString
                 "Must provide either an OpenAI Token or an LLM client."))).
Proof.
  split; intros; split; reflexivity.
Qed.

(** ** [wrapCommand] *)

Section WrapCommand.
Variable h : host.
Variables (c0 : string) (args : list string) (t0 : termState).

Lemma wrapCommand_pty_failure e :
  ptyStartErr h = Some e ->
  wrapCommand h (c0 :: args) t0
  = (Returned (Some e), Frame [EvCommand c0 args; EvPtyStart] [] t0).
Proof.
  intros Hp. unfold wrapCommand, wrapCommand_body, bind, emit, pty_Start.
  simpl. rewrite Hp. reflexivity.
Qed.

Lemma wrapCommand_raw_failure e :
  ptyStartErr h = None -> makeRawErr h = Some e ->
  wrapCommand h (c0 :: args) t0
  = (Panicked e,
     Frame (prologue c0 args ++ [EvSignalStop; EvCloseSignalChan; EvPtyClose])
           [] t0).
Proof.
  intros Hp Hr.
  unfold wrapCommand, wrapCommand_body, bind, emit, defer, pty_Start,
    term_MakeRaw.
  simpl. rewrite Hp. simpl. rewrite Hr. reflexivity.
Qed.

(** How a session that entered raw mode ends, by what the client and the
    multiplexer do. *)
Lemma wrapCommand_session :
  ptyStartErr h = None -> makeRawErr h = None ->
  wrapCommand h (c0 :: args) t0
  = match announcePanic h with
    | Some v =>
        (Panicked v,
         Frame (prologue c0 args ++ startup c0 args ++ epilogue t0) []
               (restored h t0))
    | None =>
        (match muxPanic h with
         | Some v => Panicked v
         | None => Returned None
         end,
         Frame (prologue c0 args ++ startup c0 args
                  ++ map EvMux (muxEvents h) ++ epilogue t0)
               [] (restored h t0))
    end.
Proof.
  intros Hp Hr.
  unfold wrapCommand, wrapCommand_body, bind, emit, defer, pty_Start,
    term_MakeRaw, SendWrappedCommand, wrappingMultiplexer, return_, restored.
  simpl. rewrite Hp. simpl. rewrite Hr. simpl.
  destruct (announcePanic h); simpl.
  - unfold run_deferred; simpl. destruct (restoreFails h); reflexivity.
  - destruct (muxPanic h); simpl; unfold run_deferred; simpl;
      rewrite <- ?app_assoc; simpl; destruct (restoreFails h); reflexivity.
Qed.
End WrapCommand.

Lemma wrapCommand_no_command h t0 :
  exists v, wrapCommand h [] t0 = (Panicked v, Frame [] [] t0).
Proof. eexists. reflexivity. Qed.

Lemma count_restores_app l1 l2 :
  count_restores (l1 ++ l2) = (count_restores l1 + count_restores l2)%nat.
Proof.
  unfold count_restores. rewrite filter_app, length_app. reflexivity.
Qed.

Lemma count_restores_mux l : count_restores (map EvMux l) = 0%nat.
Proof.
  unfold count_restores. induction l as [|e l IH]; simpl; auto.
Qed.

Lemma no_relay_split l pre e post :
  no_relay l -> l = pre ++ e :: post -> is_relay e = true -> False.
Proof.
  intros Hl -> He. unfold no_relay in Hl.
  rewrite Forall_app in Hl. destruct Hl as [_ Hl].
  inversion Hl; subst. congruence.
Qed.

(** A relay found in [A ++ B] with no relay in [A] lies in [B], so all of
    [A] comes before it. *)
Lemma relay_after_prefix (A B pre post : list event) e :
  no_relay A -> A ++ B = pre ++ e :: post -> is_relay e = true ->
  exists mid, pre = A ++ mid.
Proof.
  intros HA Heq He.
  apply app_eq_app in Heq. destruct Heq as [l [[H1 H2] | [H1 H2]]].
  - destruct l as [|x l].
    + exists []. rewrite app_nil_r in H1. rewrite app_nil_r. congruence.
    + exfalso. simpl in H2. injection H2 as Hx _. subst x.
      apply (@no_relay_split A pre e l HA); auto.
  - exists l. exact H1.
Qed.

(** C2 (as the program does it).  When [term.MakeRaw] fails, [wrapCommand]
    does not return the error: it panics with it.  The deferred signal
    clean-up and the closing of the pty run, raw mode was asked for once
    (no retry), and nothing of the session was started (no reader, no
    announcement, no multiplexer, no restore); the terminal keeps its
    mode. *)
Theorem wrapCommand_panics_when_raw_mode_fails
  (h : host) (c0 : string) (args : list string) (t0 : termState) (e : error) :
  ptyStartErr h = None ->
  makeRawErr h = Some e ->
  wrapCommand h (c0 :: args) t0
  = (Panicked e,
     Frame [EvCommand c0 args; EvPtyStart; EvSignalNotify; EvGoResize;
            EvSendWinch; EvMakeRaw;
            EvSignalStop; EvCloseSignalChan; EvPtyClose] [] t0).
Proof.
  intros Hp Hr. rewrite (wrapCommand_raw_failure h c0 args t0 Hp Hr).
  reflexivity.
Qed.

Lemma wrapCommand_panics_when_raw_mode_fails_witness :
  wrapCommand hostNoTTY ["zsh"%string] 5
  = (Panicked (ErrorString "inappropriate ioctl for device"),
     Frame [EvCommand "zsh" []; EvPtyStart; EvSignalNotify; EvGoResize;
            EvSendWinch; EvMakeRaw;
            EvSignalStop; EvCloseSignalChan; EvPtyClose] [] 5).
Proof.
  apply (@wrapCommand_panics_when_raw_mode_fails hostNoTTY "zsh" [] 5);
    reflexivity.
Defined.

(** C2 (as claimed) fails: on a host whose terminal refuses raw mode the
    error is not returned by [wrapCommand]. *)
Lemma wrapCommand_raw_mode_error_not_returned :
  makeRawErr hostNoTTY = Some (ErrorString "inappropriate ioctl for device")
  /\ fst (wrapCommand hostNoTTY ["zsh"%string] 5)
     <> Returned (Some (ErrorString "inappropriate ioctl for device")).
Proof.
  split; [reflexivity|]. vm_compute. discriminate.
Qed.

(** C4.  Whenever raw mode was entered, whatever the client and the
    multiplexer then do (return or panic, after any events), [term.Restore]
    is called exactly once, with the mode that was saved, which is the mode
    the terminal had; when that call succeeds the terminal is back in that
    mode. *)
Theorem wrapCommand_restores_exactly_once
  (h : host) (c0 : string) (args : list string) (t0 : termState) :
  ptyStartErr h = None ->
  makeRawErr h = None ->
  let f := snd (wrapCommand h (c0 :: args) t0) in
  count_restores (trace f) = 1%nat
  /\ In (EvRestore t0) (trace f)
  /\ (restoreFails h = false -> tty f = t0).
Proof.
  intros Hp Hr. rewrite (wrapCommand_session h c0 args t0 Hp Hr).
  destruct (announcePanic h); simpl.
  - split; [reflexivity|]. split; [tauto|].
    unfold restored. intros ->. reflexivity.
  - split; [|split].
    + change (EvCommand c0 args :: EvPtyStart :: EvSignalNotify :: EvGoResize
              :: EvSendWinch :: EvMakeRaw :: EvGoReader Stdin :: EvGoReader Pty
              :: EvGoRPCStream :: EvAnnounce (join (c0 :: args))
              :: map EvMux (muxEvents h) ++ epilogue t0)
        with ((prologue c0 args ++ startup c0 args)
                ++ map EvMux (muxEvents h) ++ epilogue t0).
      rewrite !count_restores_app, count_restores_mux. reflexivity.
    + do 10 right. apply in_or_app. right. left. reflexivity.
    + unfold restored. intros ->. reflexivity.
Qed.

Lemma wrapCommand_restores_exactly_once_witness :
  let f := snd (wrapCommand hostMuxPanics ["zsh"%string; "-i"%string] 0xFF) in
  count_restores (trace f) = 1%nat
  /\ In (EvRestore 0xFF) (trace f)
  /\ (restoreFails hostMuxPanics = false -> tty f = 0xFF).
Proof.
  apply (@wrapCommand_restores_exactly_once hostMuxPanics "zsh" ["-i"%string] 0xFF);
    reflexivity.
Defined.

(** C6.  In every run of [wrapCommand], an output relay is preceded by the
    announcement of the wrapped command line. *)
Theorem wrapCommand_announces_before_relay
  (h : host) (command : list string) (t0 : termState)
  (pre post : list event) (e : event) :
  trace (snd (wrapCommand h command t0)) = pre ++ e :: post ->
  is_relay e = true ->
  In (EvAnnounce (join command)) pre.
Proof.
  intros Htr He.
  destruct command as [|c0 args].
  { exfalso. simpl in Htr. destruct pre; discriminate. }
  destruct (ptyStartErr h) as [ep|] eqn:Hp.
  { exfalso. rewrite (wrapCommand_pty_failure h c0 args t0 Hp) in Htr.
    simpl in Htr.
    eapply no_relay_split; [| exact Htr | exact He].
    repeat constructor. }
  destruct (makeRawErr h) as [er|] eqn:Hr.
  { exfalso. rewrite (wrapCommand_raw_failure h c0 args t0 Hp Hr) in Htr.
    simpl in Htr.
    eapply no_relay_split; [| exact Htr | exact He].
    repeat constructor. }
  rewrite (wrapCommand_session h c0 args t0 Hp Hr) in Htr.
  assert (Hpre : no_relay (prologue c0 args ++ startup c0 args))
    by (repeat constructor).
  destruct (announcePanic h); cbn [snd trace] in Htr.
  - exfalso. eapply no_relay_split; [| exact Htr | exact He].
    repeat constructor.
  - rewrite app_assoc in Htr.
    destruct (@relay_after_prefix _ _ _ _ _ Hpre Htr He) as [mid ->].
    apply in_or_app. left. simpl. do 9 right. left. reflexivity.
Qed.

Lemma wrapCommand_announces_before_relay_witness :
  In (EvAnnounce (join ["zsh"%string; "-i"%string]))
     (prologue "zsh" ["-i"%string] ++ startup "zsh" ["-i"%string]
        ++ [EvMux (WriteTerminal (str "hi"))]).
Proof.
  apply (@wrapCommand_announces_before_relay hostOK ["zsh"%string; "-i"%string]
           0xFF _ (epilogue 0xFF) (EvMux (RelayOutput (str "hi"))));
    reflexivity.
Defined.

(** ** [initVectorIndex] *)

Section VectorIndexProperties.
Variable Index : Type.
Variable newIndex : Index.
Variable setOutput : Index -> Index.
Variable loadPaths : Index -> list string -> Index * option error.

Local Abbreviation init := (initVectorIndex newIndex setOutput loadPaths).
Local Abbreviation again := (initAgain newIndex setOutput loadPaths).

(** With an index in place the call changes nothing and reports success. *)
Lemma initVectorIndex_set (this : ButterfishCtx Index) paths :
  VectorIndex this <> None -> init this paths = (None, this).
Proof.
  unfold initVectorIndex. destruct (VectorIndex this); [reflexivity|congruence].
Qed.

(** Every call leaves an index in place, also one that returns an error. *)
Lemma initVectorIndex_sets (this : ButterfishCtx Index) paths :
  VectorIndex (snd (init this paths)) <> None.
Proof.
  unfold initVectorIndex.
  destruct (VectorIndex this) eqn:E; simpl; [congruence|].
  destruct (Verbose this); simpl;
    destruct (InConsoleMode this); simpl; try discriminate;
    match goal with
    | |- context [loadPaths ?i ?p] => destruct (loadPaths i p) as [i' [e|]]
    end; simpl; discriminate.
Qed.

Lemma initAgain_set (this : ButterfishCtx Index) args :
  VectorIndex this <> None ->
  again this args = (map (fun _ => None) args, this).
Proof.
  intros Hset. induction args as [|p rest IH]; simpl; [reflexivity|].
  rewrite (initVectorIndex_set this p Hset), IH. reflexivity.
Qed.

(** C8.  After a first call of [initVectorIndex] (whatever it returned) the
    index is set, and a second call, with any paths, returns success and
    leaves the context as it is: the same index, no further call into the
    embedding package (no index constructed, no paths loaded). *)
Theorem initVectorIndex_idempotent
  (this : ButterfishCtx Index) (paths1 paths2 : list string) :
  let this1 := snd (init this paths1) in
  VectorIndex this1 <> None
  /\ init this1 paths2 = (None, this1).
Proof.
  intros this1. split.
  - apply initVectorIndex_sets.
  - apply initVectorIndex_set, initVectorIndex_sets.
Qed.

(** C10.  Outside console mode, when [LoadPaths] fails on the first call
    the error is returned but the index stays assigned, and every later
    call returns success at once, without calling [LoadPaths] again. *)
Theorem initVectorIndex_keeps_index_on_load_error
  (this : ButterfishCtx Index) (paths : list string)
  (loaded : Index) (e : error) :
  VectorIndex this = None ->
  InConsoleMode this = false ->
  loadPaths (preparedIndex newIndex setOutput this) (pathsOrCwd paths)
  = (loaded, Some e) ->
  let this1 := snd (init this paths) in
  fst (init this paths) = Some e
  /\ VectorIndex this1 = Some loaded
  /\ forall later : list (list string),
       again this1 later = (map (fun _ => None) later, this1)
       /\ calls (snd (again this1 later)) = calls this1.
Proof.
  intros Hnil Hmode Hload this1.
  assert (Hrun : init this paths
                 = (Some e,
                    Ctx (Verbose this) false (Some loaded)
                        ((if Verbose this
                          then (calls this ++ [CallNewIndex]) ++ [CallSetOutput]
                          else calls this ++ [CallNewIndex])
                           ++ [CallLoadPaths (pathsOrCwd paths)]))).
  { unfold initVectorIndex, preparedIndex, pathsOrCwd in *.
    rewrite Hnil.
    destruct (Verbose this); simpl; rewrite Hmode; simpl;
      rewrite Hload; reflexivity. }
  subst this1. rewrite Hrun. simpl.
  split; [reflexivity|]. split; [reflexivity|].
  intros later. rewrite initAgain_set by (simpl; discriminate).
  split; reflexivity.
Qed.
End VectorIndexProperties.

Lemma initVectorIndex_keeps_index_on_load_error_witness :
  let init := initVectorIndex [] (fun i => i) loadOrFail in
  let this := Ctx false false None [] in
  let this1 := snd (init this ["/nonexistent"%string]) in
  fst (init this ["/nonexistent"%string])
  = Some (ErrorString "no such file or directory")
  /\ VectorIndex this1 = Some []
  /\ forall later : list (list string),
       initAgain [] (fun i => i) loadOrFail this1 later
       = (map (fun _ => None) later, this1)
       /\ calls (snd (initAgain [] (fun i => i) loadOrFail this1 later))
          = calls this1.
Proof.
  apply (@initVectorIndex_keeps_index_on_load_error
           (list string) [] (fun i => i) loadOrFail
           (Ctx false false None []) ["/nonexistent"%string] []
           (ErrorString "no such file or directory"));
    reflexivity.
Defined.

(** ** [readerToChannel] *)

Lemma nth_middle_app {A} (pre : list A) x l d :
  nth (length pre) (pre ++ x :: l) d = x.
Proof. induction pre; simpl; auto. Qed.

Lemma set_nth_middle {A} (pre : list A) x y l :
  set_nth (length pre) y (pre ++ x :: l) = pre ++ y :: l.
Proof. induction pre; simpl; congruence. Qed.

Lemma skipn_repeat_all {A} (x : A) n : skipn n (repeat x n) = [].
Proof. induction n; simpl; auto. Qed.

(** Writing [data] at the start of an array that is long enough. *)
Lemma store_middle pre bufArr chunks data :
  (length data <= length bufArr)%nat ->
  store (Slice (length pre) (length bufArr)) data (pre ++ bufArr :: chunks)
  = pre ++ (data ++ skipn (length data) bufArr) :: chunks.
Proof.
  intros Hle. unfold store, array_at. simpl.
  rewrite Nat.min_r by exact Hle.
  rewrite nth_middle_app, set_nth_middle, firstn_all. reflexivity.
Qed.

(** [NewByteMsg] allocates after everything else and leaves a copy there. *)
Lemma NewByteMsg_copy (m : list (list byte)) (s : slice) :
  length (contents m s) = len s ->
  NewByteMsg s m
  = (ByteMsg (Slice (length m) (len s)), m ++ [contents m s]).
Proof.
  intros Hlen. unfold NewByteMsg, make, store, array_at. simpl.
  rewrite Hlen, Nat.min_id.
  replace (m ++ [repeat x00 (len s)]) with (m ++ repeat x00 (len s) :: [])
    by reflexivity.
  rewrite nth_middle_app, set_nth_middle, skipn_repeat_all, app_nil_r.
  rewrite <- Hlen, firstn_all. reflexivity.
Qed.

Section ReaderToChannelProperties.
Context {R : Type} `{Reader R}.

(** The loop, run on a memory made of what was there before ([pre]), the
    buffer, and the chunks copied so far: it adds one array per read that
    returned no error, holding the bytes of that read, and sends them in
    order. *)
Lemma readLoop_reads (fuel : nat) :
  forall (input : R) pre bufArr chunks ch lg ds dl e r',
    reads fuel input (length bufArr) = Some (ds, (dl, e), r') ->
    exists bufArr',
      length bufArr' = length bufArr
      /\ readLoop fuel input (Slice (length pre) (length bufArr))
                  (World (pre ++ bufArr :: chunks) ch lg)
         = Some (r', World (pre ++ bufArr' :: chunks ++ ds)
                           (ch ++ map Send
                                  (msgs_at (S (length pre + length chunks)) ds))
                           (lg ++ log_of e)).
Proof.
  induction fuel as [|fuel IH]; intros input pre bufArr chunks ch lg ds dl e r' Hr.
  - discriminate.
  - cbn [reads] in Hr. cbn [readLoop]. cbn [len mem chan logged].
    pose proof (Read_bound input (length bufArr)) as Hb.
    destruct (Read input (length bufArr)) as [[data err] input'].
    simpl in Hb.
    rewrite (store_middle pre bufArr chunks data Hb).
    set (bufArr1 := data ++ skipn (length data) bufArr).
    assert (Hlen1 : length bufArr1 = length bufArr).
    { unfold bufArr1. rewrite length_app, length_skipn. lia. }
    destruct err as [e0|].
    + inversion Hr; subst; clear Hr.
      exists bufArr1. split; [exact Hlen1|].
      simpl. rewrite !app_nil_r.
      destruct e; simpl; rewrite ?app_nil_r; reflexivity.
    + destruct (reads fuel input' (length bufArr)) as [[[ds' last'] r'']|] eqn:Hrec;
        [|discriminate].
      inversion Hr; subst; clear Hr.
      assert (Hc : contents (pre ++ bufArr1 :: chunks)
                            (reslice (Slice (length pre) (length bufArr))
                                     (length data)) = data).
      { unfold contents, reslice, array_at. simpl.
        rewrite nth_middle_app. unfold bufArr1.
        rewrite firstn_app, firstn_all, Nat.sub_diag. simpl.
        apply app_nil_r. }
      rewrite NewByteMsg_copy by (rewrite Hc; reflexivity).
      rewrite Hc. cbn [reslice len].
      replace ((pre ++ bufArr1 :: chunks) ++ [data])
        with (pre ++ bufArr1 :: (chunks ++ [data]))
        by (rewrite <- app_assoc; reflexivity).
      rewrite <- Hlen1 in Hrec.
      destruct (IH input' pre bufArr1 (chunks ++ [data])
                   (ch ++ [Send (ByteMsg (Slice (length (pre ++ bufArr1 :: chunks))
                                                (length data)))])
                   lg ds' dl e r' Hrec) as [bufArr' [Hlen' Hloop]].
      exists bufArr'. split; [congruence|].
      rewrite Hlen1 in Hloop. rewrite Hloop.
      f_equal. f_equal. f_equal.
      * rewrite <- app_assoc. reflexivity.
      * rewrite <- app_assoc. simpl. f_equal. f_equal.
        -- rewrite length_app. simpl. do 3 f_equal. lia.
        -- rewrite length_app. simpl. do 2 f_equal. lia.
Qed.

(** [readerToChannel] in terms of the reads it makes. *)
Lemma readerToChannelWith_reads (size fuel : nat) (input : R) (w : world)
      ds dl e r' :
  reads fuel input size = Some (ds, (dl, e), r') ->
  exists bufArr',
    readerToChannelWith size fuel input w
    = Some (r', World (mem w ++ bufArr' :: ds)
                      (chan w ++ map Send (msgs_at (S (length (mem w))) ds)
                            ++ [Close])
                      (logged w ++ log_of e)).
Proof.
  intros Hr. unfold readerToChannelWith, make.
  rewrite <- (repeat_length x00 size) in Hr.
  destruct (@readLoop_reads fuel input (mem w) (repeat x00 size) []
              (chan w) (logged w) ds dl e r' Hr) as [bufArr' [_ Hloop]].
  rewrite repeat_length in Hloop.
  replace (mem w ++ [repeat x00 size]) with (mem w ++ repeat x00 size :: [])
    by reflexivity.
  rewrite Hloop. exists bufArr'. simpl. rewrite Nat.add_0_r.
  rewrite <- app_assoc. reflexivity.
Qed.
End ReaderToChannelProperties.

(** *** The messages and what they point to *)

Lemma msgs_at_length base ds : length (msgs_at base ds) = length ds.
Proof. revert base. induction ds; simpl; auto. Qed.

Lemma msgs_at_addresses base ds :
  map (fun m => arr (Data m)) (msgs_at base ds) = seq base (length ds).
Proof. revert base. induction ds; simpl; intros; f_equal; auto. Qed.

(** In a memory that ends with the chunks, message [i] denotes chunk [i]. *)
Lemma msgs_at_contents (P ds : list (list byte)) :
  map (fun m => contents (P ++ ds) (Data m)) (msgs_at (length P) ds) = ds.
Proof.
  revert P. induction ds as [|d ds IH]; intros P; simpl; [reflexivity|].
  f_equal.
  - unfold contents, array_at. simpl. rewrite nth_middle_app.
    apply firstn_all.
  - specialize (IH (P ++ [d])). rewrite <- app_assoc in IH. simpl in IH.
    rewrite length_app in IH. simpl in IH.
    rewrite Nat.add_1_r in IH. exact IH.
Qed.

(** *** A source that fills the buffer *)

Lemma reads_bytesReader (size : nat) :
  (0 < size)%nat ->
  forall fuel (data : list byte),
    (length data < fuel)%nat ->
    reads fuel data size = Some (pieces fuel size data, ([], EOF), []).
Proof.
  intros Hsize. induction fuel as [|fuel IH]; intros data Hlen; [lia|].
  destruct data as [|b data]; [reflexivity|].
  cbn [reads Read bytesReader bytesRead pieces].
  rewrite IH; [reflexivity|].
  rewrite length_skipn. cbn [length] in *. lia.
Qed.

Lemma ceil_div_step (n b : nat) :
  (0 < b)%nat -> (0 < n)%nat -> ceil_div n b = S (ceil_div (n - b) b).
Proof.
  intros Hb Hn. unfold ceil_div.
  destruct (Nat.le_gt_cases b n) as [Hle|Hgt].
  - replace (n + b - 1)%nat with ((n - b + b - 1) + 1 * b)%nat by lia.
    rewrite Nat.div_add by lia. lia.
  - replace (n - b)%nat with 0%nat by lia. simpl.
    rewrite (Nat.div_small (b - 1) b) by lia.
    replace (n + b - 1)%nat with ((n - 1) + 1 * b)%nat by lia.
    rewrite Nat.div_add by lia. rewrite Nat.div_small by lia. reflexivity.
Qed.

Lemma pieces_count (size : nat) :
  (0 < size)%nat ->
  forall fuel data,
    (length data < fuel)%nat ->
    length (pieces fuel size data) = ceil_div (length data) size.
Proof.
  intros Hsize. induction fuel as [|fuel IH]; intros data Hlen; [lia|].
  destruct data as [|b data].
  - simpl. unfold ceil_div. simpl. rewrite Nat.div_small by lia. reflexivity.
  - cbn [pieces]. change (length (firstn size (b :: data)
                             :: pieces fuel size (skipn size (b :: data))))
      with (S (length (pieces fuel size (skipn size (b :: data))))).
    rewrite IH by (rewrite length_skipn; cbn [length] in *; lia).
    rewrite length_skipn.
    rewrite (@ceil_div_step (length (b :: data)) size) by (simpl; lia).
    reflexivity.
Qed.

Lemma pieces_concat (size : nat) :
  (0 < size)%nat ->
  forall fuel data,
    (length data < fuel)%nat -> concat (pieces fuel size data) = data.
Proof.
  intros Hsize. induction fuel as [|fuel IH]; intros data Hlen; [lia|].
  destruct data as [|b data]; [reflexivity|].
  cbn [pieces concat].
  rewrite IH by (rewrite length_skipn; cbn [length] in *; lia).
  apply firstn_skipn.
Qed.

Lemma pieces_nonempty (size : nat) :
  (0 < size)%nat ->
  forall fuel data, Forall (fun d => d <> []) (pieces fuel size data).
Proof.
  intros Hsize. induction fuel as [|fuel IH]; intros data; [constructor|].
  destruct data as [|b data]; [constructor|].
  cbn [pieces]. constructor; [|apply IH].
  destruct size; [lia|]. simpl. discriminate.
Qed.

Lemma closes_after_sends (ch : list chan_event) (msgs : list byteMsg) m lg :
  closes (World m (ch ++ map Send msgs ++ [Close]) lg)
  = S (closes (World m ch lg)).
Proof.
  unfold closes. cbn [chan]. rewrite !filter_app, !length_app.
  assert (Hs : filter (fun e => match e with Close => true | _ => false end)
                      (map Send msgs) = []).
  { induction msgs; simpl; auto. }
  rewrite Hs. simpl. lia.
Qed.

(** For any source: when the reads reach an error, [readerToChannel]
    returns, having sent one message per read that returned no error, each
    a copy of the bytes of its read in an array of its own, in order, and
    having closed the channel after them.  An error other than [io.EOF] is
    logged. *)
Lemma readerToChannel_sends_the_reads
  {R : Type} `{Reader R} (size fuel : nat) (input : R) (w : world)
  ds dl e r' :
  reads fuel input size = Some (ds, (dl, e), r') ->
  exists (msgs : list byteMsg) (w' : world),
    readerToChannelWith size fuel input w = Some (r', w')
    /\ emitted w w' msgs ds
    /\ logged w' = logged w ++ log_of e.
Proof.
  intros Hreads.
  destruct (@readerToChannelWith_reads _ _ size fuel input w _ _ _ _ Hreads)
    as [bufArr' Hrun].
  exists (msgs_at (S (length (mem w))) ds).
  eexists. split; [exact Hrun|]. split; [|reflexivity].
  unfold emitted. cbn [chan mem logged]. repeat split.
  - rewrite closes_after_sends. destruct w; reflexivity.
  - rewrite msgs_at_length. apply msgs_at_addresses.
  - pose proof (msgs_at_contents (mem w ++ [bufArr']) ds) as Hc.
    rewrite <- app_assoc in Hc. simpl in Hc.
    rewrite length_app in Hc. simpl in Hc.
    rewrite Nat.add_1_r in Hc. exact Hc.
  - rewrite firstn_app, firstn_all, Nat.sub_diag. simpl. apply app_nil_r.
Qed.

Lemma emitted_count w w' msgs ds :
  emitted w w' msgs ds -> length msgs = length ds.
Proof.
  intros (_ & _ & _ & Hc & _). rewrite <- Hc. symmetry. apply length_map.
Qed.

(** C3 (as the program does it).
    - For any source whose reads reach end of stream (or another error)
      with a read that returns no bytes: [readerToChannel] terminates,
      having sent one chunk for each read that returned no error, in
      order, each in an array of its own allocated after the buffer (so
      that no later read overwrites it) and holding the bytes of its read;
      the chunks together are the bytes the source delivered; the channel
      is then closed, once.
    - For a source that holds [data], hands out [min(B, remaining)] bytes
      at each read and reports end of stream by an empty read, with
      [B > 0]: the chunks are [ceil(N / B)] in number, none is empty, and
      together they are [data]; nothing is logged. *)
Theorem readerToChannel_chunks :
  (forall (R : Type) (HR : Reader R) (size fuel : nat) (input : R) (w : world)
          (ds : list (list byte)) (e : error) (r' : R),
      reads fuel input size = Some (ds, ([], e), r') ->
      exists (msgs : list byteMsg) (w' : world),
        readerToChannelWith size fuel input w = Some (r', w')
        /\ emitted w w' msgs ds
        /\ length msgs = length ds
        /\ concat (map (fun m => contents (mem w') (Data m)) msgs) = concat ds)
  /\ (forall (B fuel : nat) (data : list byte) (w : world),
         (0 < B)%nat ->
         (length data < fuel)%nat ->
         exists (ds : list (list byte)) (msgs : list byteMsg) (w' : world),
           readerToChannelWith B fuel data w = Some ([], w')
           /\ emitted w w' msgs ds
           /\ length msgs = ceil_div (length data) B
           /\ Forall (fun d => d <> []) ds
           /\ concat ds = data
           /\ logged w' = logged w).
Proof.
  split.
  - intros R HR size fuel input w ds e r' Hreads.
    destruct (readerToChannel_sends_the_reads size fuel input w Hreads)
      as (msgs & w' & Hrun & Hem & _).
    exists msgs, w'. split; [exact Hrun|]. split; [exact Hem|].
    split; [exact (emitted_count Hem)|].
    destruct Hem as (_ & _ & _ & Hc & _). rewrite Hc. reflexivity.
  - intros B fuel data w HB Hfuel.
    pose proof (@reads_bytesReader B HB fuel data Hfuel) as Hreads.
    destruct (readerToChannel_sends_the_reads B fuel data w Hreads)
      as (msgs & w' & Hrun & Hem & Hlog).
    exists (pieces fuel B data), msgs, w'.
    split; [exact Hrun|]. split; [exact Hem|].
    split; [|split; [|split]].
    + rewrite (emitted_count Hem). apply pieces_count; assumption.
    + apply pieces_nonempty; assumption.
    + apply pieces_concat; assumption.
    + rewrite Hlog. apply app_nil_r.
Qed.

Lemma readerToChannel_chunks_witness :
  exists (ds : list (list byte)) (msgs : list byteMsg) (w' : world),
    readerToChannelWith 4 13 (str "hello, world") emptyWorld = Some ([], w')
    /\ emitted emptyWorld w' msgs ds
    /\ length msgs = ceil_div (length (str "hello, world")) 4
    /\ Forall (fun d => d <> []) ds
    /\ concat ds = str "hello, world"
    /\ logged w' = logged emptyWorld.
Proof.
  apply (proj2 readerToChannel_chunks 4%nat 13%nat (str "hello, world")
               emptyWorld).
  - lia.
  - vm_compute. lia.
Defined.

(** C3 (as claimed) fails.  A source of 3 bytes that delivers them in two
    reads makes [readerToChannel] send two chunks, not [ceil(3 / 16384) = 1];
    and a read of no bytes without error makes it send an empty chunk. *)
Lemma readerToChannel_short_reads_counterexample :
  (option_map chunks_sent (ran (readerToChannel 3 typedInput emptyWorld))
   = Some [str "a"; str "bc"]
   /\ ceil_div (length (str "abc")) (1024 * 16) = 1%nat
   /\ 2%nat <> ceil_div (length (str "abc")) (1024 * 16))
  /\ option_map chunks_sent (ran (readerToChannel 3 idleInput emptyWorld))
     = Some [str "ab"; []].
Proof.
  split; [split; [|split]|].
  - vm_compute. reflexivity.
  - vm_compute. reflexivity.
  - vm_compute. discriminate.
  - vm_compute. reflexivity.
Qed.

(** ** Bytes, bit operations and UTF-8 *)

Import utf8.

Lemma b2z_range b : 0 <= b2z b < 256.
Proof.
  unfold b2z. pose proof (Byte.to_N_bounded b). lia.
Qed.

Lemma z2b_b2z b : z2b (b2z b) = b.
Proof.
  unfold z2b. rewrite Z.mod_small by apply b2z_range.
  unfold b2z. rewrite N2Z.id, Byte.of_to_N. reflexivity.
Qed.

Lemma b2z_z2b z : 0 <= z < 256 -> b2z (z2b z) = z.
Proof.
  intros Hz. unfold z2b, b2z. rewrite Z.mod_small by exact Hz.
  destruct (Byte.of_N (Z.to_N z)) as [b|] eqn:E.
  - apply Byte.to_of_N in E. rewrite E. lia.
  - apply Byte.of_N_None_iff in E. lia.
Qed.

(** Or-ing bits below [2^n] into a multiple of [2^n] adds them. *)
Lemma lor_add a b n :
  0 <= n -> a mod 2 ^ n = 0 -> 0 <= b < 2 ^ n -> Z.lor a b = a + b.
Proof.
  intros Hn Ha Hb. rewrite <- Z.add_lor_land.
  assert (Z.land a b = 0) as ->; [|lia].
  apply Z.bits_inj'. intros i Hi. rewrite Z.land_spec, Z.bits_0.
  destruct (Z.lt_ge_cases i n).
  - rewrite <- (Z.mod_pow2_bits_low a n i) by lia.
    rewrite Ha, Z.bits_0. reflexivity.
  - rewrite <- (Z.mod_small b (2 ^ n)) by lia.
    rewrite Z.mod_pow2_bits_high by lia. apply andb_false_r.
Qed.

(** Linear arithmetic with division and remainder by constants. *)
Ltac zlia := Z.to_euclidean_division_equations; lia.

(** The masks and shifts of the encoding, as arithmetic. *)

Lemma land_63 x : Z.land x 63 = x mod 64.
Proof. change 63 with (Z.ones 6). rewrite Z.land_ones by lia. reflexivity. Qed.
Lemma land_31 x : Z.land x 31 = x mod 32.
Proof. change 31 with (Z.ones 5). rewrite Z.land_ones by lia. reflexivity. Qed.
Lemma land_15 x : Z.land x 15 = x mod 16.
Proof. change 15 with (Z.ones 4). rewrite Z.land_ones by lia. reflexivity. Qed.
Lemma land_7 x : Z.land x 7 = x mod 8.
Proof. change 7 with (Z.ones 3). rewrite Z.land_ones by lia. reflexivity. Qed.
Lemma shiftr_6 x : Z.shiftr x 6 = x / 64.
Proof. rewrite Z.shiftr_div_pow2 by lia. reflexivity. Qed.
Lemma shiftr_12 x : Z.shiftr x 12 = x / 4096.
Proof. rewrite Z.shiftr_div_pow2 by lia. reflexivity. Qed.
Lemma shiftr_18 x : Z.shiftr x 18 = x / 262144.
Proof. rewrite Z.shiftr_div_pow2 by lia. reflexivity. Qed.
Lemma shiftl_6 x : Z.shiftl x 6 = x * 64.
Proof. rewrite Z.shiftl_mul_pow2 by lia. reflexivity. Qed.
Lemma shiftl_12 x : Z.shiftl x 12 = x * 4096.
Proof. rewrite Z.shiftl_mul_pow2 by lia. reflexivity. Qed.
Lemma shiftl_18 x : Z.shiftl x 18 = x * 262144.
Proof. rewrite Z.shiftl_mul_pow2 by lia. reflexivity. Qed.

(** Rewrite the masks and shifts of the goal into arithmetic. *)
Ltac bits_to_arith :=
  rewrite ?land_63, ?land_31, ?land_15, ?land_7,
          ?shiftr_6, ?shiftr_12, ?shiftr_18, ?shiftl_6, ?shiftl_12, ?shiftl_18.

(** Turn the [Z.lor] that assemble disjoint bit fields into sums. *)
Ltac lor_to_add :=
  repeat match goal with
  | |- context [Z.lor ?a ?b] =>
      first [ rewrite (@lor_add a b 6) by (try reflexivity; zlia)
            | rewrite (@lor_add a b 12) by (try reflexivity; zlia)
            | rewrite (@lor_add a b 18) by (try reflexivity; zlia)
            | rewrite (@lor_add a b 5) by (try reflexivity; zlia)
            | rewrite (@lor_add a b 4) by (try reflexivity; zlia)
            | rewrite (@lor_add a b 3) by (try reflexivity; zlia) ]
  end.



(** [EncodeRune] by the size of the rune, in arithmetic. *)
Lemma EncodeRune_1 r : 0 <= r <= 0x7F -> EncodeRune r = [z2b r].
Proof.
  intros Hr. unfold EncodeRune, uint32, rune1Max.
  rewrite Z.mod_small by lia.
  destruct (Z.leb_spec r 127); [reflexivity|lia].
Qed.

Lemma EncodeRune_2 r :
  0x80 <= r <= 0x7FF ->
  EncodeRune r = [z2b (192 + r / 64); z2b (128 + r mod 64)].
Proof.
  intros Hr. unfold EncodeRune, uint32, rune1Max, rune2Max, t2, tx, maskx.
  rewrite Z.mod_small by lia.
  destruct (Z.leb_spec r 127); [lia|].
  destruct (Z.leb_spec r 2047); [|lia].
  bits_to_arith. lor_to_add. reflexivity.
Qed.

(** The tests of [EncodeRune] on a rune above two bytes. *)
Ltac encode_tests r :=
  unfold EncodeRune, uint32, rune1Max, rune2Max, rune3Max, MaxRune,
    surrogateMin, surrogateMax, encode3, encode4, t3, t4, tx, maskx;
  rewrite Z.mod_small by lia;
  destruct (Z.leb_spec r 127); [lia|];
  destruct (Z.leb_spec r 2047); [lia|];
  destruct (Z.ltb_spec 1114111 r); [lia|];
  destruct (Z.leb_spec 55296 r); destruct (Z.leb_spec r 57343);
  try lia; cbn [andb orb];
  destruct (Z.leb_spec r 65535); try lia.

Lemma EncodeRune_3 r :
  0x800 <= r <= 0xFFFF -> ~ (0xD800 <= r <= 0xDFFF) ->
  EncodeRune r
  = [z2b (224 + r / 4096); z2b (128 + (r / 64) mod 64); z2b (128 + r mod 64)].
Proof.
  intros Hr Hs. encode_tests r; bits_to_arith; lor_to_add; reflexivity.
Qed.

Lemma EncodeRune_4 r :
  0x10000 <= r <= 0x10FFFF ->
  EncodeRune r
  = [z2b (240 + r / 262144); z2b (128 + (r / 4096) mod 64);
     z2b (128 + (r / 64) mod 64); z2b (128 + r mod 64)].
Proof.
  intros Hr. encode_tests r; bits_to_arith; lor_to_add; reflexivity.
Qed.

Lemma shiftr_4 x : Z.shiftr x 4 = x / 16.
Proof. rewrite Z.shiftr_div_pow2 by lia. reflexivity. Qed.

(** Evaluate the comparisons between constants. *)
Ltac eval_bool :=
  repeat match goal with
  | |- context [Z.ltb ?a ?b] =>
      let v := eval vm_compute in (Z.ltb a b) in
      lazymatch v with true => idtac | false => idtac end;
      change (Z.ltb a b) with v
  | |- context [Z.leb ?a ?b] =>
      let v := eval vm_compute in (Z.leb a b) in
      lazymatch v with true => idtac | false => idtac end;
      change (Z.leb a b) with v
  | |- context [Z.geb ?a ?b] =>
      let v := eval vm_compute in (Z.geb a b) in
      lazymatch v with true => idtac | false => idtac end;
      change (Z.geb a b) with v
  | |- context [Z.eqb ?a ?b] =>
      let v := eval vm_compute in (Z.eqb a b) in
      lazymatch v with true => idtac | false => idtac end;
      change (Z.eqb a b) with v
  end.


(** After the class of the first byte is known: the length test, the tests
    on the continuation bytes, and the assembled rune.  [bad] closes the
    branches that end in [(RuneError, 1)]. *)
Ltac decode_class bad :=
  match goal with
  | |- context [Z.land ?x 7] =>
      let sz := eval vm_compute in (Z.land x 7) in
      let acc := eval vm_compute in (acceptRanges (Z.shiftr x 4)) in
      change (Z.land x 7) with sz;
      change (acceptRanges (Z.shiftr x 4)) with acc
  end;
  cbn [fst snd];
  unfold mask2, mask3, mask4, maskx, locb, hicb in *;
  eval_bool; cbv iota;
  match goal with
  | |- context [Z.ltb ?n ?sz] =>
      destruct (Z.ltb_spec n sz); [bad|]
  end;
  repeat match goal with
  | |- context [nth _ ?t _] =>
      is_var t; destruct t as [|? t]; [cbn [length] in *; lia|];
      cbn [nth]
  end;
  cbn [nth];
  repeat match goal with
  | |- context [b2z ?b] =>
      lazymatch goal with
      | _ : 0 <= b2z b < 256 |- _ => fail
      | _ => pose proof (b2z_range b)
      end
  end;
  repeat match goal with
  | |- context [(?a <? ?b) || (?c <? ?d)] =>
      destruct (Z.ltb_spec a b); [cbn [orb]; bad|];
      destruct (Z.ltb_spec c d); [cbn [orb]; bad|];
      cbn [orb]
  end;
  bits_to_arith; lor_to_add.


(** The rows of [first] a first byte can be in. *)
Ltac first_rows s0 :=
  repeat match goal with
  | |- context [if Z.ltb (b2z s0) ?k then _ else _] =>
      destruct (Z.ltb_spec (b2z s0) k); try lia
  | |- context [if Z.eqb (b2z s0) ?k then _ else _] =>
      destruct (Z.eqb_spec (b2z s0) k); try lia
  end.

(** Enter [DecodeRune] on a string that is not empty. *)
Ltac decode_start :=
  unfold DecodeRune, at_; cbn [length nth];
  rewrite ?Nat2Z.inj_succ;
  match goal with
  | |- context [Z.ltb ?n 1] => destruct (Z.ltb_spec n 1); [lia|]
  end;
  unfold first.

Lemma DecodeRune_decoded s0 t :
  decoded (s0 :: t) (fst (DecodeRune (s0 :: t))) (snd (DecodeRune (s0 :: t))).
Proof.
  pose proof (b2z_range s0) as H0.
  decode_start.
  destruct (Z.ltb_spec (b2z s0) 128).
  { cbn. apply dec1. lia. }
  destruct (Z.ltb_spec (b2z s0) 194).
  { cbn. apply decbad. }
  first_rows s0; try (cbn; apply decbad);
    decode_class ltac:(apply decbad);
    first [apply dec2; lia | apply dec3; lia | apply dec4; lia].
Qed.

Lemma DecodeRune_eq1 s0 t :
  b2z s0 < 0x80 -> DecodeRune (s0 :: t) = (b2z s0, 1%nat).
Proof.
  intros H. pose proof (b2z_range s0). decode_start.
  destruct (Z.ltb_spec (b2z s0) 128); [reflexivity|lia].
Qed.

Lemma DecodeRune_eq2 s0 s1 t :
  0xC2 <= b2z s0 <= 0xDF -> 0x80 <= b2z s1 <= 0xBF ->
  DecodeRune (s0 :: s1 :: t)
  = ((b2z s0 mod 32) * 64 + b2z s1 mod 64, 2%nat).
Proof.
  intros. pose proof (b2z_range s0). decode_start.
  first_rows s0; decode_class ltac:(lia); reflexivity.
Qed.

Lemma DecodeRune_eq3 s0 s1 s2 t :
  0xE0 <= b2z s0 <= 0xEF -> 0x80 <= b2z s1 <= 0xBF ->
  (b2z s0 = 0xE0 -> 0xA0 <= b2z s1) -> (b2z s0 = 0xED -> b2z s1 <= 0x9F) ->
  0x80 <= b2z s2 <= 0xBF ->
  DecodeRune (s0 :: s1 :: s2 :: t)
  = ((b2z s0 mod 16) * 4096 + (b2z s1 mod 64) * 64 + b2z s2 mod 64, 3%nat).
Proof.
  intros. pose proof (b2z_range s0). decode_start.
  first_rows s0; decode_class ltac:(lia); reflexivity.
Qed.

Lemma DecodeRune_eq4 s0 s1 s2 s3 t :
  0xF0 <= b2z s0 <= 0xF4 -> 0x80 <= b2z s1 <= 0xBF ->
  (b2z s0 = 0xF0 -> 0x90 <= b2z s1) -> (b2z s0 = 0xF4 -> b2z s1 <= 0x8F) ->
  0x80 <= b2z s2 <= 0xBF -> 0x80 <= b2z s3 <= 0xBF ->
  DecodeRune (s0 :: s1 :: s2 :: s3 :: t)
  = ((b2z s0 mod 8) * 262144 + (b2z s1 mod 64) * 4096
     + (b2z s2 mod 64) * 64 + b2z s3 mod 64, 4%nat).
Proof.
  intros. pose proof (b2z_range s0). decode_start.
  first_rows s0; decode_class ltac:(lia); reflexivity.
Qed.

Lemma z2b_eq e b : e = b2z b -> z2b e = b.
Proof. intros ->. apply z2b_b2z. Qed.

(** Lists of bytes, each the [z2b] of the value of the byte expected. *)
Ltac bytes_back :=
  repeat (apply f_equal2; [apply z2b_eq; zlia|]); reflexivity.

Lemma RuneError_valid : valid_rune RuneError.
Proof. right. unfold RuneError. lia. Qed.

(** What was decoded is a valid rune, and unless it stands for an invalid
    byte the bytes it was decoded from are its encoding. *)
Lemma decoded_encode s r w :
  decoded s r w ->
  valid_rune r /\ (1 <= w <= length s)%nat
  /\ ((r = RuneError /\ w = 1%nat) \/ EncodeRune r = firstn w s).
Proof.
  intros Hd. destruct Hd as
    [s0 t H0 | s0 s1 t H0 H1 | s0 s1 s2 t H0 H1 Hlo Hhi H2
     | s0 s1 s2 s3 t H0 H1 Hlo Hhi H2 H3 | s0 t].
  - pose proof (b2z_range s0). split; [left; lia|]. split; [simpl; lia|].
    right. rewrite EncodeRune_1 by lia. rewrite z2b_b2z. reflexivity.
  - pose proof (b2z_range s1).
    split; [left; zlia|]. split; [simpl; lia|].
    right. rewrite EncodeRune_2 by zlia. cbn [firstn].
    bytes_back.
  - split; [|split; [simpl; lia|]].
    + destruct (Z.lt_ge_cases (b2z s0) 0xED); [left; zlia|].
      destruct (Z.eq_dec (b2z s0) 0xED); [left; zlia|right; zlia].
    + right. rewrite EncodeRune_3 by zlia. cbn [firstn].
      bytes_back.
  - split; [right; zlia|]. split; [simpl; lia|].
    right. rewrite EncodeRune_4 by zlia. cbn [firstn].
    bytes_back.
  - split; [apply RuneError_valid|]. split; [simpl; lia|]. left. auto.
Qed.

(** Decoding an encoding gives the rune back, whatever follows. *)
Lemma DecodeRune_EncodeRune r rest :
  valid_rune r ->
  DecodeRune (EncodeRune r ++ rest) = (r, length (EncodeRune r)).
Proof.
  intros Hv.
  destruct (Z.le_gt_cases r 0x7F) as [H1|H1].
  { rewrite EncodeRune_1 by (destruct Hv; lia). cbn [app length].
    rewrite DecodeRune_eq1; rewrite b2z_z2b by (destruct Hv; lia);
      [reflexivity | lia]. }
  destruct (Z.le_gt_cases r 0x7FF) as [H2|H2].
  { rewrite EncodeRune_2 by lia. cbn [app length].
    rewrite DecodeRune_eq2; rewrite ?b2z_z2b by zlia; try zlia.
    f_equal. zlia. }
  destruct (Z.le_gt_cases r 0xFFFF) as [H3|H3].
  { assert (Hs : ~ (0xD800 <= r <= 0xDFFF)) by (destruct Hv; lia).
    rewrite EncodeRune_3 by lia. cbn [app length].
    rewrite DecodeRune_eq3; rewrite ?b2z_z2b by zlia; try zlia.
    f_equal. zlia. }
  { assert (Hm : r <= 0x10FFFF) by (destruct Hv; lia).
    rewrite EncodeRune_4 by lia. cbn [app length].
    rewrite DecodeRune_eq4; rewrite ?b2z_z2b by zlia; try zlia.
    f_equal. zlia. }
Qed.

(** The encoding of a rune outside ASCII has no ASCII byte. *)
Lemma EncodeRune_high r :
  valid_rune r -> 0x80 <= r ->
  Forall (fun b => 0x80 <= b2z b) (EncodeRune r).
Proof.
  intros Hv Hr.
  destruct (Z.le_gt_cases r 0x7FF) as [H2|H2].
  { rewrite EncodeRune_2 by lia.
    repeat constructor; rewrite b2z_z2b by zlia; zlia. }
  destruct (Z.le_gt_cases r 0xFFFF) as [H3|H3].
  { assert (Hs : ~ (0xD800 <= r <= 0xDFFF)) by (destruct Hv; lia).
    rewrite EncodeRune_3 by lia.
    repeat constructor; rewrite b2z_z2b by zlia; zlia. }
  { assert (Hm : r <= 0x10FFFF) by (destruct Hv; lia).
    rewrite EncodeRune_4 by lia.
    repeat constructor; rewrite b2z_z2b by zlia; zlia. }
Qed.

(** ** The runes of a string *)

Lemma EncodeRune_nonempty r : EncodeRune r <> [].
Proof.
  unfold EncodeRune, encode3, encode4.
  repeat match goal with
         | |- context [if ?c then _ else _] => destruct c
         end; discriminate.
Qed.

Lemma DecodeRune_width s0 t :
  (1 <= snd (DecodeRune (s0 :: t)) <= length (s0 :: t))%nat.
Proof.
  pose proof (DecodeRune_decoded s0 t) as Hd.
  apply decoded_encode in Hd. tauto.
Qed.

(** One step of the decoding loop. *)
Lemma runes_step s0 t :
  runes (s0 :: t)
  = Item (fst (DecodeRune (s0 :: t)))
         (firstn (snd (DecodeRune (s0 :: t))) (s0 :: t))
      :: runes (skipn (snd (DecodeRune (s0 :: t))) (s0 :: t)).
Proof.
  rewrite runes_equation_2. cbv zeta.
  pose proof (DecodeRune_width s0 t) as Hw.
  destruct (snd (DecodeRune (s0 :: t))) as [|w]; [lia|]. reflexivity.
Qed.

(** Induction along the decoding loop: from the string after the first
    rune to the whole string. *)
Lemma runes_ind (P : list byte -> Prop) :
  P [] ->
  (forall s0 t,
      P (skipn (snd (DecodeRune (s0 :: t))) (s0 :: t)) -> P (s0 :: t)) ->
  forall s, P s.
Proof.
  intros Hnil Hstep s.
  remember (length s) as n eqn:Hn. revert s Hn.
  induction n as [n IH] using lt_wf_ind. intros s Hn.
  destruct s as [|s0 t]; [exact Hnil|].
  apply Hstep. apply (IH (length (skipn (snd (DecodeRune (s0 :: t))) (s0 :: t))));
    [|reflexivity].
  pose proof (DecodeRune_width s0 t). rewrite length_skipn. subst n. lia.
Qed.

(** The items cover the string. *)
Lemma bytes_of_runes s : bytes_of (runes s) = s.
Proof.
  induction s as [|s0 t IH] using runes_ind; [reflexivity|].
  rewrite runes_step. unfold bytes_of in *. cbn [flat_map ibytes].
  rewrite IH. apply firstn_skipn.
Qed.

Lemma runes_ok s : Forall item_ok (runes s).
Proof.
  induction s as [|s0 t IH] using runes_ind.
  - rewrite runes_equation_1. constructor.
  - rewrite runes_step. constructor; [|exact IH].
    pose proof (DecodeRune_decoded s0 t) as Hd.
    apply decoded_encode in Hd. destruct Hd as [Hv [Hw Hb]].
    split; [exact Hv|]. cbn [irune ibytes].
    destruct Hb as [[He H1]|Henc].
    + left. split; [exact He|]. rewrite length_firstn. lia.
    + right. symmetry. exact Henc.
Qed.

(** The runes of a string that begins with an encoding. *)
Lemma runes_encoded r rest :
  valid_rune r -> runes (EncodeRune r ++ rest) = encoded r :: runes rest.
Proof.
  intros Hv.
  pose proof (DecodeRune_EncodeRune rest Hv) as Hd.
  pose proof (EncodeRune_nonempty r) as Hne.
  destruct (EncodeRune r) as [|e0 e] eqn:He; [congruence|].
  cbn [app] in *. rewrite runes_step, Hd. cbn [fst snd].
  unfold encoded. rewrite He.
  change (e0 :: e ++ rest) with ((e0 :: e) ++ rest).
  rewrite firstn_app, firstn_all, Nat.sub_diag.
  rewrite skipn_app, skipn_all, Nat.sub_diag. cbn [firstn skipn app].
  rewrite app_nil_r. reflexivity.
Qed.

Lemma runes_flat_map_encode rs :
  Forall valid_rune rs ->
  runes (flat_map EncodeRune rs) = map encoded rs.
Proof.
  induction 1 as [|r rs Hr Hrs IH]; cbn [flat_map map].
  - apply runes_equation_1.
  - rewrite runes_encoded by exact Hr. rewrite IH. reflexivity.
Qed.

(** The runes of ASCII text are its bytes. *)
Lemma runes_ascii s :
  Forall (fun b => b2z b < 0x80) s ->
  runes s = map (fun b => Item (b2z b) [b]) s.
Proof.
  induction 1 as [|b s Hb Hs IH]; [apply runes_equation_1|].
  rewrite runes_step, DecodeRune_eq1 by exact Hb.
  cbn [fst snd firstn skipn map]. rewrite IH. reflexivity.
Qed.

(** ** [stripANSI] *)

(** No match starts at a rune that is neither ESC nor U+009B. *)
Lemma match_len_no_introducer it t :
  ansi.introducer (irune it) = false ->
  regexp.match_len ansi.ansiRegexp (it :: t) = None.
Proof.
  intros Hi. unfold regexp.match_len, ansi.ansiRegexp, ansi.ansiPattern.
  cbn [regexp.backtrack]. rewrite Hi. reflexivity.
Qed.

Lemma deleteAll_no_introducer l :
  Forall (fun it => ansi.introducer (irune it) = false) l ->
  regexp.deleteAll ansi.ansiRegexp l = bytes_of l.
Proof.
  induction 1 as [|it l Hit Hl IH].
  - apply regexp.deleteAll_equation_1.
  - rewrite regexp.deleteAll_equation_2, match_len_no_introducer by exact Hit.
    rewrite IH. reflexivity.
Qed.

(** A string without ESC and U+009B goes through [stripANSI] unchanged. *)
Lemma stripANSI_no_introducer s :
  Forall (fun it => ansi.introducer (irune it) = false) (runes s) ->
  stripANSI s = s.
Proof.
  intros Hs. unfold stripANSI, regexp.ReplaceAllString_empty.
  rewrite deleteAll_no_introducer by exact Hs. apply bytes_of_runes.
Qed.

(** ** [filterNonPrintable] *)

Section SanitizerProperties.
Variable inPrintRanges : rune -> bool.

Local Abbreviation keep := (kept inPrintRanges).
Local Abbreviation wr := (written inPrintRanges).
Local Abbreviation mapping := (keepPrintable inPrintRanges).
Local Abbreviation filterNP := (filterNonPrintable inPrintRanges).
Local Abbreviation sanitize := (sanitizeTTYData inPrintRanges).
Local Abbreviation keptRunes := (kept_runes inPrintRanges).

Lemma keepPrintable_kept r :
  mapping r = if keep r then r else -1.
Proof.
  unfold keepPrintable, kept, ch. simpl N_of_ascii.
  change (Z.of_N 10) with 10. change (Z.of_N 9) with 9.
  destruct (r =? 10), (r =? 9); reflexivity.
Qed.

(** Control characters other than newline and tab are not kept; neither is
    U+009B. *)
Lemma kept_latin1 r :
  0 <= r <= 0xFF -> keep r = (r =? 10) || (r =? 9) || unicode.latin1Print r.
Proof.
  intros Hr. unfold kept, unicode.IsPrint, uint32, unicode.MaxLatin1.
  rewrite (Z.mod_small r (2 ^ 32)) by lia.
  destruct (Z.leb_spec r 255); [|lia].
  rewrite (Z.mod_small r 256) by lia. reflexivity.
Qed.

Lemma kept_not_introducer r : keep r = true -> ansi.introducer r = false.
Proof.
  intros Hk. unfold ansi.introducer, oneOf. cbn [existsb].
  destruct (Z.eqb_spec r 0x1B) as [->|_];
    [rewrite kept_latin1 in Hk by lia; discriminate|].
  destruct (Z.eqb_spec r 0x9B) as [->|_];
    [rewrite kept_latin1 in Hk by lia; discriminate|].
  reflexivity.
Qed.

Lemma plain_kept b : plain b -> keep (b2z b) = true.
Proof.
  intros Hp. pose proof (b2z_range b).
  rewrite kept_latin1 by lia. unfold unicode.latin1Print.
  destruct Hp as [-> | [-> | Hp]]; [reflexivity | reflexivity |].
  destruct (Z.leb_spec 32 (b2z b)); [|lia].
  destruct (Z.leb_spec (b2z b) 126); [|lia].
  cbn [andb orb]. apply orb_true_r.
Qed.

(** For an item of [runes], what the two loops of [strings.Map] write. *)
Lemma unchanged_written it :
  item_ok it -> strings.unchanged mapping it = true ->
  wr it = ibytes it.
Proof.
  intros [Hv Hb] Hu. unfold strings.unchanged, written in *.
  rewrite keepPrintable_kept in Hu.
  destruct (keep (irune it)) eqn:Hk.
  - rewrite Z.eqb_refl in Hu. cbn [andb] in Hu.
    destruct Hb as [[He Hl]|Henc]; [|congruence].
    rewrite He in Hu. change (RuneError =? RuneError) with true in Hu.
    cbn [negb] in Hu. rewrite Hl in Hu. discriminate.
  - exfalso.
    destruct (Z.eqb_spec (-1) (irune it)); [destruct Hv; lia|].
    cbn [andb] in Hu. cbv iota in Hu.
    destruct (irune it =? RuneError);
      [rewrite andb_false_r in Hu|]; discriminate.
Qed.

Lemma first_written it :
  item_ok it ->
  (if mapping (irune it) >=? 0
   then EncodeRune (mapping (irune it)) else [])
  = wr it.
Proof.
  intros [Hv _]. unfold written. rewrite keepPrintable_kept.
  destruct (keep (irune it)); [|reflexivity].
  destruct (Z.geb_spec (irune it) 0); [reflexivity|].
  destruct Hv; lia.
Qed.

Lemma write_mapped_written it :
  item_ok it -> strings.write_mapped mapping it = wr it.
Proof.
  intros [Hv Hb]. unfold strings.write_mapped, written.
  rewrite keepPrintable_kept.
  destruct (keep (irune it)); [|reflexivity].
  destruct (Z.geb_spec (irune it) 0); [|destruct Hv; lia].
  unfold RuneSelf.
  destruct (Z.ltb_spec (irune it) 128); [|reflexivity].
  rewrite EncodeRune_1 by lia. reflexivity.
Qed.

Lemma flat_map_write_mapped l :
  Forall item_ok l ->
  flat_map (strings.write_mapped mapping) l = flat_map wr l.
Proof.
  induction 1 as [|it l Hit Hl IH]; cbn [flat_map]; [reflexivity|].
  rewrite write_mapped_written by exact Hit. rewrite IH. reflexivity.
Qed.

(** The first loop: the bytes it leaves alone are what would be written
    for them, and it stops at an item that is not left alone. *)
Lemma scan_written l :
  Forall item_ok l ->
  fst (strings.scan mapping l)
      ++ flat_map wr (snd (strings.scan mapping l))
  = flat_map wr l
  /\ (snd (strings.scan mapping l) = [] ->
      flat_map wr l = bytes_of l).
Proof.
  induction 1 as [|it l Hit Hl [IH1 IH2]]; cbn [strings.scan].
  - split; reflexivity.
  - destruct (strings.unchanged mapping it) eqn:Hu.
    + destruct (strings.scan mapping l) as [pre tl].
      cbn [fst snd] in *. cbn [flat_map].
      rewrite (unchanged_written Hit Hu). split.
      * rewrite <- app_assoc, IH1. reflexivity.
      * intros Htl. unfold bytes_of in *. cbn [flat_map].
        rewrite IH2 by exact Htl. reflexivity.
    + cbn [fst snd]. split; [reflexivity|discriminate].
Qed.

Lemma scan_tail_ok l :
  Forall item_ok l -> Forall item_ok (snd (strings.scan mapping l)).
Proof.
  induction 1 as [|it l Hit Hl IH]; cbn [strings.scan]; [constructor|].
  destruct (strings.unchanged mapping it).
  - destruct (strings.scan mapping l) as [pre tl]. exact IH.
  - constructor; assumption.
Qed.

(** [filterNonPrintable] writes, for each rune of its input in order, the
    encoding of the rune when it is kept and nothing otherwise. *)
Lemma filterNonPrintable_written s :
  filterNP s = flat_map wr (runes s).
Proof.
  unfold filterNonPrintable, strings.Map.
  pose proof (runes_ok s) as Hok.
  destruct (scan_written Hok) as [H1 H2].
  destruct (strings.scan mapping (runes s)) as [pre tl] eqn:Hscan.
  cbn [fst snd] in *.
  destruct tl as [|it rest].
  - rewrite H2 by reflexivity. symmetry. apply bytes_of_runes.
  - rewrite <- H1. cbn [flat_map].
    assert (Htl : Forall item_ok (it :: rest)).
    { pose proof (scan_tail_ok Hok) as Ht. rewrite Hscan in Ht. exact Ht. }
    inversion Htl as [|? ? Hit Hrest]; subst.
    rewrite (first_written Hit), (flat_map_write_mapped Hrest). reflexivity.
Qed.

Lemma flat_map_written l :
  flat_map wr l = flat_map EncodeRune (filter keep (map irune l)).
Proof.
  induction l as [|it l IH]; cbn [flat_map map filter]; [reflexivity|].
  unfold written at 1. destruct (keep (irune it)); cbn [flat_map app].
  - rewrite IH. reflexivity.
  - exact IH.
Qed.

Lemma kept_runes_valid s : Forall valid_rune (keptRunes s).
Proof.
  unfold kept_runes. apply Forall_forall. intros r Hin.
  apply filter_In in Hin. destruct Hin as [Hin _].
  apply in_map_iff in Hin. destruct Hin as [it [<- Hit]].
  pose proof (runes_ok s) as Hok. rewrite Forall_forall in Hok.
  apply (Hok it Hit).
Qed.

Lemma kept_runes_kept s : Forall (fun r => keep r = true) (keptRunes s).
Proof.
  unfold kept_runes. apply Forall_forall. intros r Hin.
  apply filter_In in Hin. tauto.
Qed.

(** The runes of what [filterNonPrintable] returns. *)
Lemma runes_filterNonPrintable s :
  runes (filterNP s) = map encoded (keptRunes s).
Proof.
  rewrite filterNonPrintable_written, flat_map_written.
  apply runes_flat_map_encode, kept_runes_valid.
Qed.

(** ** [sanitizeTTYData] *)

(** What [sanitizeTTYData] returns: the encodings of the kept runes of the
    stripped input. *)
Lemma sanitizeTTYData_encoded data :
  sanitize data = flat_map EncodeRune (keptRunes (stripANSI data)).
Proof.
  unfold sanitizeTTYData. rewrite filterNonPrintable_written.
  apply flat_map_written.
Qed.

Lemma runes_sanitizeTTYData data :
  runes (sanitize data) = map encoded (keptRunes (stripANSI data)).
Proof. apply runes_filterNonPrintable. Qed.

Lemma flat_map_written_encoded rs :
  Forall (fun r => keep r = true) rs ->
  flat_map wr (map encoded rs) = flat_map EncodeRune rs.
Proof.
  induction 1 as [|r rs Hr Hrs IH]; cbn [map flat_map]; [reflexivity|].
  unfold written at 1. cbn [encoded irune]. rewrite Hr, IH. reflexivity.
Qed.

(** C5.  Sanitizing a sanitized chunk changes nothing. *)
Theorem sanitizeTTYData_idempotent (data : list byte) :
  sanitizeTTYData inPrintRanges (sanitizeTTYData inPrintRanges data)
  = sanitizeTTYData inPrintRanges data.
Proof.
  set (y := sanitize data).
  pose proof (runes_sanitizeTTYData data) as Hrunes. fold y in Hrunes.
  pose proof (kept_runes_kept (stripANSI data)) as Hkept.
  assert (Hstrip : stripANSI y = y).
  { apply stripANSI_no_introducer. rewrite Hrunes.
    apply Forall_map. eapply Forall_impl; [|exact Hkept].
    intros r Hr. cbn [encoded irune]. apply kept_not_introducer, Hr. }
  unfold sanitizeTTYData at 1. rewrite Hstrip.
  rewrite filterNonPrintable_written, Hrunes.
  rewrite flat_map_written_encoded by exact Hkept.
  unfold y. symmetry. apply sanitizeTTYData_encoded.
Qed.

Lemma plain_ascii b : plain b -> b2z b < 0x80.
Proof. unfold plain. lia. Qed.

(** C7.  A chunk of printable ASCII characters, newlines and tabs is left
    as it is. *)
Theorem sanitizeTTYData_identity_on_plain_text (data : list byte) :
  Forall plain data ->
  sanitizeTTYData inPrintRanges data = data.
Proof.
  intros Hplain.
  assert (Hrunes : runes data = map (fun b => Item (b2z b) [b]) data).
  { apply runes_ascii. eapply Forall_impl; [|exact Hplain].
    intros b. apply plain_ascii. }
  assert (Hstrip : stripANSI data = data).
  { apply stripANSI_no_introducer. rewrite Hrunes.
    apply Forall_map. eapply Forall_impl; [|exact Hplain].
    intros b Hb. cbn [irune]. apply kept_not_introducer, plain_kept, Hb. }
  unfold sanitizeTTYData. rewrite Hstrip.
  rewrite filterNonPrintable_written, Hrunes.
  clear Hrunes Hstrip.
  induction Hplain as [|b l Hb Hl IH]; cbn [map flat_map]; [reflexivity|].
  unfold written at 1. cbn [irune]. rewrite (plain_kept Hb).
  pose proof (b2z_range b).
  rewrite EncodeRune_1 by (apply plain_ascii in Hb; lia).
  rewrite z2b_b2z, IH. reflexivity.
Qed.

(** The bytes of the encoding of a kept rune: never a carriage return,
    never ESC. *)
Lemma kept_bytes r b :
  valid_rune r -> keep r = true -> In b (EncodeRune r) ->
  b2z b <> 13 /\ b2z b <> 27.
Proof.
  intros Hv Hk Hin.
  destruct (Z.lt_ge_cases r 0x80) as [Hlo|Hhi].
  - assert (Hr : 0 <= r <= 0x7F) by (destruct Hv; lia).
    rewrite EncodeRune_1 in Hin by exact Hr.
    destruct Hin as [<-|[]]. rewrite b2z_z2b by lia.
    rewrite kept_latin1 in Hk by lia.
    split; intros ->; discriminate.
  - pose proof (EncodeRune_high Hv Hhi) as Hb.
    rewrite Forall_forall in Hb. specialize (Hb b Hin). lia.
Qed.

(** A byte that cannot start or continue anything on its own. *)
Lemma DecodeRune_lone_byte b :
  0x80 <= b2z b -> DecodeRune [b] = (RuneError, 1%nat).
Proof.
  intros Hb. pose proof (b2z_range b). decode_start.
  first_rows b; reflexivity.
Qed.

Lemma runes_lone_byte b :
  0x80 <= b2z b -> runes [b] = [Item RuneError [b]].
Proof.
  intros Hb. rewrite runes_step, DecodeRune_lone_byte by exact Hb.
  cbn [fst snd firstn skipn]. rewrite runes_equation_1. reflexivity.
Qed.

(** C9.  Whatever the input bytes are, every rune of the output of
    [sanitizeTTYData] is a newline, a tab or a printable rune, and no byte
    of the output is a carriage return or ESC.  An input byte that is not
    valid UTF-8 is not dropped: with tables that list the replacement
    character U+FFFD as printable (as the Unicode tables do), a chunk made
    of such a byte comes out as the encoding of U+FFFD. *)
Theorem sanitizeTTYData_output_is_printable (data : list byte) (bad : byte) :
  Forall (fun it => irune it = 10 \/ irune it = 9
                    \/ unicode.IsPrint inPrintRanges (irune it) = true)
         (runes (sanitizeTTYData inPrintRanges data))
  /\ Forall (fun b => b2z b <> 13 /\ b2z b <> 27)
            (sanitizeTTYData inPrintRanges data)
  /\ (inPrintRanges RuneError = true -> 0x80 <= b2z bad ->
      sanitizeTTYData inPrintRanges [bad] = EncodeRune RuneError
      /\ unicode.IsPrint inPrintRanges RuneError = true).
Proof.
  pose proof (kept_runes_kept (stripANSI data)) as Hkept.
  pose proof (kept_runes_valid (stripANSI data)) as Hvalid.
  split; [|split].
  - rewrite runes_sanitizeTTYData. apply Forall_map.
    eapply Forall_impl; [|exact Hkept].
    intros r Hr. cbn [encoded irune]. unfold kept in Hr.
    apply orb_true_iff in Hr. destruct Hr as [Hr|Hr]; [|tauto].
    apply orb_true_iff in Hr. destruct Hr as [Hr|Hr];
      apply Z.eqb_eq in Hr; tauto.
  - rewrite sanitizeTTYData_encoded. apply Forall_forall. intros b Hin.
    apply in_flat_map in Hin. destruct Hin as [r [Hr Hin]].
    rewrite Forall_forall in Hkept, Hvalid.
    apply (@kept_bytes r b); auto.
  - intros Htable Hbad.
    assert (Hprint : unicode.IsPrint inPrintRanges RuneError = true).
    { unfold unicode.IsPrint. exact Htable. }
    split; [|exact Hprint].
    assert (Hstrip : stripANSI [bad] = [bad]).
    { apply stripANSI_no_introducer. rewrite runes_lone_byte by exact Hbad.
      repeat constructor. }
    unfold sanitizeTTYData. rewrite Hstrip.
    rewrite filterNonPrintable_written, runes_lone_byte by exact Hbad.
    cbn [flat_map]. unfold written, kept. cbn [irune].
    rewrite Hprint. cbn [orb]. apply app_nil_r.
Qed.
End SanitizerProperties.

Lemma sanitizeTTYData_identity_on_plain_text_witness :
  sanitizeTTYData onlyReplacement (str "ls -la") = str "ls -la".
Proof.
  apply sanitizeTTYData_identity_on_plain_text.
  repeat constructor; unfold plain; vm_compute; intuition discriminate.
Defined.

Lemma sanitizeTTYData_output_is_printable_witness :
  sanitizeTTYData onlyReplacement [xff] = EncodeRune RuneError
  /\ unicode.IsPrint onlyReplacement RuneError = true.
Proof.
  apply (@sanitizeTTYData_output_is_printable onlyReplacement
           (str "hi") xff).
  - reflexivity.
  - vm_compute. discriminate.
Defined.

(** The examples of the specification. *)
Lemma sanitizeTTYData_removal_example (tables : rune -> bool) :
  sanitizeTTYData tables
    (x1b :: str "[31mHello" ++ x1b :: str "[0m" ++ x09 :: str "World" ++ [x0a])
  = str "Hello" ++ x09 :: str "World" ++ [x0a].
Proof. vm_compute. reflexivity. Qed.

Lemma sanitizeTTYData_title_example (tables : rune -> bool) :
  sanitizeTTYData tables (x1b :: str "]0;zsh" ++ x07 :: str "$ ") = str "$ ".
Proof. vm_compute. reflexivity. Qed.

Lemma sanitizeTTYData_crlf_example (tables : rune -> bool) :
  sanitizeTTYData tables (str "hi" ++ [x0d; x0a]) = str "hi" ++ [x0a].
Proof. vm_compute. reflexivity. Qed.

(* ===================================================================== *)
(** * Part III: further properties of the program                        *)
(* ===================================================================== *)

(** ** [NewByteMsg] *)

Lemma nth_set_nth_ne {A} (l : list A) (n k : nat) (x d : A) :
  n <> k -> nth k (set_nth n x l) d = nth k l d.
Proof.
  revert n k. induction l as [|y l IH]; intros [|n] [|k] Hne; simpl;
    try reflexivity; try lia.
  apply IH. lia.
Qed.

(** X1.  The message [NewByteMsg] makes of a slice lies in an array that
    did not exist before, has the length and the bytes of the slice, and
    shares nothing with it: the arrays that existed are untouched, and
    whatever is written afterwards through a slice of another array (the
    read buffer, for one) leaves the bytes of the message as they are. *)
Theorem NewByteMsg_copies_without_aliasing
  (m : list (list byte)) (s : slice) :
  length (contents m s) = len s ->
  let msg := fst (NewByteMsg s m) in
  let m1 := snd (NewByteMsg s m) in
  arr (Data msg) = length m
  /\ len (Data msg) = len s
  /\ contents m1 (Data msg) = contents m s
  /\ (forall a, (a < length m)%nat -> array_at m1 a = array_at m a)
  /\ (forall (dst : slice) (d : list byte),
         arr dst <> arr (Data msg) ->
         contents (store dst d m1) (Data msg) = contents m1 (Data msg)).
Proof.
  intros Hlen msg m1. subst msg m1. rewrite (NewByteMsg_copy m s Hlen).
  cbn [fst snd Data arr len].
  assert (Hnew : array_at (m ++ [contents m s]) (length m) = contents m s).
  { unfold array_at.
    change (m ++ [contents m s]) with (m ++ contents m s :: []).
    apply nth_middle_app. }
  split; [reflexivity|]. split; [reflexivity|]. split; [|split].
  - unfold contents at 1. cbn [arr len]. rewrite Hnew.
    rewrite <- Hlen. apply firstn_all.
  - intros a Ha. unfold array_at. apply app_nth1. exact Ha.
  - intros dst d Hne. unfold contents at 1 3. cbn [arr len].
    f_equal. unfold store, array_at at 1.
    apply nth_set_nth_ne. exact Hne.
Qed.

Lemma NewByteMsg_copies_without_aliasing_witness :
  let m := [str "hello, world"] in
  let s := Slice 0 5 in
  let msg := fst (NewByteMsg s m) in
  let m1 := snd (NewByteMsg s m) in
  arr (Data msg) = length m
  /\ len (Data msg) = len s
  /\ contents m1 (Data msg) = contents m s
  /\ (forall a, (a < length m)%nat -> array_at m1 a = array_at m a)
  /\ (forall (dst : slice) (d : list byte),
         arr dst <> arr (Data msg) ->
         contents (store dst d m1) (Data msg) = contents m1 (Data msg)).
Proof.
  apply (@NewByteMsg_copies_without_aliasing [str "hello, world"] (Slice 0 5)).
  reflexivity.
Defined.

(** ** [readerToChannel]: errors, bounds, termination *)

(** X2.  When a read returns an error, [readerToChannel] stops: it has sent
    the chunks of the reads before it and only those (bytes returned
    together with the error are not sent), it closes the channel, once, and
    it logs the error unless it is [io.EOF]. *)
Theorem readerToChannel_stops_at_the_first_error
  {R : Type} `{Reader R} (size fuel : nat) (input : R) (w : world)
  (ds : list (list byte)) (dl : list byte) (e : error) (r' : R) :
  reads fuel input size = Some (ds, (dl, e), r') ->
  exists (msgs : list byteMsg) (w' : world),
    readerToChannelWith size fuel input w = Some (r', w')
    /\ chan w' = chan w ++ map Send msgs ++ [Close]
    /\ map (fun m => contents (mem w') (Data m)) msgs = ds
    /\ logged w' = logged w ++ match e with EOF => [] | _ => [e] end.
Proof.
  intros Hreads.
  destruct (readerToChannel_sends_the_reads size fuel input w Hreads)
    as (msgs & w' & Hrun & Hem & Hlog).
  exists msgs, w'. split; [exact Hrun|].
  destruct Hem as (Hchan & _ & _ & Hc & _).
  split; [exact Hchan|]. split; [exact Hc|]. exact Hlog.
Qed.

Lemma readerToChannel_stops_at_the_first_error_witness :
  exists (msgs : list byteMsg) (w' : world),
    readerToChannelWith 8 2 brokenPipe emptyWorld = Some ([], w')
    /\ chan w' = chan emptyWorld ++ map Send msgs ++ [Close]
    /\ map (fun m => contents (mem w') (Data m)) msgs = [str "ab"]
    /\ logged w' = logged emptyWorld ++ [ErrorString "input/output error"].
Proof.
  apply (@readerToChannel_stops_at_the_first_error
           _ scriptReader 8 2 brokenPipe emptyWorld
           [str "ab"] (str "cd") (ErrorString "input/output error") []).
  reflexivity.
Defined.

Lemma reads_bound {R : Type} `{Reader R} (size : nat) :
  forall fuel (input : R) ds last r',
    reads fuel input size = Some (ds, last, r') ->
    Forall (fun d => (length d <= size)%nat) ds.
Proof.
  induction fuel as [|fuel IH]; intros input ds last r' Hr; [discriminate|].
  cbn [reads] in Hr. pose proof (Read_bound input size) as Hb.
  destruct (Read input size) as [[data err] input']. simpl in Hb.
  destruct err as [e|].
  - inversion Hr; subst. constructor.
  - destruct (reads fuel input' size) as [[[ds' last'] r'']|] eqn:Hrec;
      [|discriminate].
    inversion Hr; subst. constructor; [exact Hb|].
    eapply IH. exact Hrec.
Qed.

(** As long as no read returns an error the loop goes on. *)
Lemma readLoop_without_error {R : Type} `{Reader R} :
  forall fuel (input : R) buf w,
    reads fuel input (len buf) = None -> readLoop fuel input buf w = None.
Proof.
  induction fuel as [|fuel IH]; intros input buf w Hn; [reflexivity|].
  cbn [reads] in Hn. cbn [readLoop].
  destruct (Read input (len buf)) as [[data err] input'].
  destruct err as [e|]; [discriminate|].
  destruct (reads fuel input' (len buf)) as [[[? ?] ?]|] eqn:Hrec;
    [discriminate|].
  destruct (NewByteMsg _ _) as [msg m2]. apply IH. exact Hrec.
Qed.

(** X3.  No chunk is longer than the buffer: every message
    [readerToChannel] sends holds at most [size] bytes (16384 in the
    program), whatever the source. *)
Theorem readerToChannel_chunks_fit_the_buffer
  {R : Type} `{Reader R} (size fuel : nat) (input : R) (w w' : world) (r' : R) :
  readerToChannelWith size fuel input w = Some (r', w') ->
  exists msgs : list byteMsg,
    chan w' = chan w ++ map Send msgs ++ [Close]
    /\ Forall (fun m => (length (contents (mem w') (Data m)) <= size)%nat) msgs.
Proof.
  intros Hrun.
  destruct (reads fuel input size) as [[[ds [dl e]] r'']|] eqn:Hreads.
  - destruct (readerToChannel_sends_the_reads size fuel input w Hreads)
      as (msgs & w'' & Hrun' & Hem & _).
    rewrite Hrun in Hrun'. inversion Hrun'; subst.
    exists msgs. destruct Hem as (Hchan & _ & _ & Hc & _).
    split; [exact Hchan|].
    apply Forall_map with (f := fun m => contents (mem w'') (Data m))
                          (P := fun d => (length d <= size)%nat).
    rewrite Hc. eapply reads_bound. exact Hreads.
  - exfalso. unfold readerToChannelWith, make in Hrun.
    rewrite (readLoop_without_error fuel input (Slice (length (mem w)) size))
      in Hrun by exact Hreads.
    discriminate.
Qed.

Lemma readerToChannel_chunks_fit_the_buffer_witness :
  let w' := World [str "cb"; str "ab"; str "c"]
                  [Send (ByteMsg (Slice 1 2)); Send (ByteMsg (Slice 2 1)); Close]
                  [] in
  exists msgs : list byteMsg,
    chan w' = chan emptyWorld ++ map Send msgs ++ [Close]
    /\ Forall (fun m => (length (contents (mem w') (Data m)) <= 2)%nat) msgs.
Proof.
  apply (@readerToChannel_chunks_fit_the_buffer
           _ bytesReader 2 3 (str "abc") emptyWorld _ []).
  vm_compute. reflexivity.
Defined.

Lemma reads_never_failing {R : Type} `{Reader R} (size : nat) :
  (forall (r : R) n, snd (fst (Read r n)) = None) ->
  forall fuel (input : R), reads fuel input size = None.
Proof.
  intros Hok. induction fuel as [|fuel IH]; intros input; [reflexivity|].
  cbn [reads]. specialize (Hok input size).
  destruct (Read input size) as [[data err] input']. simpl in Hok. subst err.
  rewrite IH. reflexivity.
Qed.

(** X4.  The only way out of the loop of [readerToChannel] is a read that
    returns an error: on a source none of whose reads ever fails the
    function does not return, and so never closes the channel, however
    many reads it is given. *)
Theorem readerToChannel_runs_until_a_read_fails
  {R : Type} `{Reader R} (size fuel : nat) (input : R) (w : world) :
  (forall (r : R) n, snd (fst (Read r n)) = None) ->
  readerToChannelWith size fuel input w = None.
Proof.
  intros Hok. unfold readerToChannelWith, make.
  rewrite (readLoop_without_error fuel input (Slice (length (mem w)) size));
    [reflexivity|].
  apply reads_never_failing. exact Hok.
Qed.

Lemma readerToChannel_runs_until_a_read_fails_witness :
  readerToChannelWith 4 100 tt emptyWorld = None.
Proof.
  apply (@readerToChannel_runs_until_a_read_fails unit zeroReader 4 100 tt
                                                   emptyWorld).
  reflexivity.
Defined.

(** ** [stripANSI], [filterNonPrintable], [sanitizeTTYData]: more *)

(** X5.  A string with no ESC and no U+009B comes out of [stripANSI] as it
    went in, whatever else it holds (invalid bytes included). *)
Theorem stripANSI_identity_without_escape (s : list byte) :
  Forall (fun it => irune it <> 0x1B /\ irune it <> 0x9B) (runes s) ->
  stripANSI s = s.
Proof.
  intros Hs. apply stripANSI_no_introducer.
  eapply Forall_impl; [|exact Hs].
  intros it [H1 H2]. unfold ansi.introducer, oneOf. cbn [existsb].
  destruct (Z.eqb_spec (irune it) 0x1B); [contradiction|].
  destruct (Z.eqb_spec (irune it) 0x9B); [contradiction|]. reflexivity.
Qed.

Lemma stripANSI_identity_without_escape_witness :
  stripANSI (str "50% done" ++ [x0d; xff]) = str "50% done" ++ [x0d; xff].
Proof.
  apply stripANSI_identity_without_escape.
  vm_compute. repeat constructor; discriminate.
Defined.

Lemma bytes_of_app l1 l2 : bytes_of (l1 ++ l2) = bytes_of l1 ++ bytes_of l2.
Proof. unfold bytes_of. apply flat_map_app. Qed.

(** The regexp only deletes. *)
Lemma deleteAll_length (r : regexp.re) :
  forall l, (length (regexp.deleteAll r l) <= length (bytes_of l))%nat.
Proof.
  intros l. remember (length l) as n eqn:Hn. revert l Hn.
  induction n as [n IH] using lt_wf_ind. intros l Hn.
  destruct l as [|it t].
  - rewrite regexp.deleteAll_equation_1. simpl. lia.
  - rewrite regexp.deleteAll_equation_2.
    assert (Hcopy : (length (ibytes it ++ regexp.deleteAll r t)
                     <= length (bytes_of (it :: t)))%nat).
    { unfold bytes_of. cbn [flat_map]. rewrite !length_app.
      specialize (IH (length t)). cbn [length] in Hn.
      assert (Ht : (length (regexp.deleteAll r t) <= length (bytes_of t))%nat)
        by (apply (IH ltac:(lia) t eq_refl)).
      unfold bytes_of in Ht. lia. }
    destruct (regexp.match_len r (it :: t)) as [[|k]|]; try exact Hcopy.
    assert (Hskip : (length (regexp.deleteAll r (skipn k t))
                     <= length (bytes_of (skipn k t)))%nat).
    { apply (IH (length (skipn k t))); [|reflexivity].
      rewrite length_skipn. cbn [length] in Hn. lia. }
    rewrite <- (firstn_skipn k t) at 2.
    change (it :: firstn k t ++ skipn k t)
      with ((it :: firstn k t) ++ skipn k t).
    rewrite bytes_of_app, length_app. lia.
Qed.

Lemma EncodeRune_length r : (length (EncodeRune r) <= 4)%nat.
Proof.
  unfold EncodeRune, encode3, encode4.
  repeat match goal with
         | |- context [if ?c then _ else _] => destruct c
         end; simpl; lia.
Qed.

Section SanitizerBounds.
Variable inPrintRanges : rune -> bool.

Local Abbreviation keep := (kept inPrintRanges).
Local Abbreviation wr := (written inPrintRanges).
Local Abbreviation filterNP := (filterNonPrintable inPrintRanges).
Local Abbreviation sanitize := (sanitizeTTYData inPrintRanges).
Local Abbreviation keptRunes := (kept_runes inPrintRanges).

Lemma written_length it :
  item_ok it -> (length (wr it) <= 3 * length (ibytes it))%nat.
Proof.
  intros [Hv Hb]. unfold written.
  destruct (keep (irune it)); [|simpl; lia].
  destruct Hb as [[He Hl]|Henc].
  - rewrite He, Hl. vm_compute. lia.
  - rewrite <- Henc. lia.
Qed.

Lemma flat_map_written_length l :
  Forall item_ok l ->
  (length (flat_map wr l) <= 3 * length (bytes_of l))%nat.
Proof.
  induction 1 as [|it l Hit Hl IH]; [simpl; lia|].
  unfold bytes_of in *. cbn [flat_map]. rewrite !length_app.
  pose proof (written_length Hit). lia.
Qed.

(** X6.  [stripANSI] never makes a string longer, and [sanitizeTTYData]
    makes a chunk at most three times as long (an invalid byte is one byte
    in and the three bytes of U+FFFD out). *)
Theorem sanitizeTTYData_length (data : list byte) :
  (length (stripANSI data) <= length data)%nat
  /\ (length (sanitizeTTYData inPrintRanges data) <= 3 * length data)%nat.
Proof.
  assert (Hstrip : (length (stripANSI data) <= length data)%nat).
  { unfold stripANSI, regexp.ReplaceAllString_empty.
    rewrite <- (bytes_of_runes data) at 2. apply deleteAll_length. }
  split; [exact Hstrip|].
  unfold sanitizeTTYData.
  rewrite (filterNonPrintable_written inPrintRanges).
  pose proof (flat_map_written_length (runes_ok (stripANSI data))) as Hf.
  rewrite bytes_of_runes in Hf. lia.
Qed.

(** X7.  What [sanitizeTTYData] returns is well-formed UTF-8: it decodes
    into valid runes, each from its own encoding, with no invalid byte;
    encoding the runes again gives the same bytes. *)
Theorem sanitizeTTYData_output_is_valid_utf8 (data : list byte) :
  Forall (fun it => valid_rune (irune it)
                    /\ ibytes it = EncodeRune (irune it))
         (runes (sanitizeTTYData inPrintRanges data))
  /\ flat_map EncodeRune (map irune (runes (sanitizeTTYData inPrintRanges data)))
     = sanitizeTTYData inPrintRanges data.
Proof.
  pose proof (runes_sanitizeTTYData inPrintRanges data) as Hrunes.
  pose proof (kept_runes_valid inPrintRanges (stripANSI data)) as Hvalid.
  split.
  - rewrite Hrunes. apply Forall_map.
    eapply Forall_impl; [|exact Hvalid].
    intros r Hr. split; [exact Hr|reflexivity].
  - rewrite Hrunes, map_map. cbn [encoded irune]. rewrite map_id.
    symmetry. apply sanitizeTTYData_encoded.
Qed.

(** X8.  Every byte of the output below 0x80 is a printable ASCII
    character, a newline or a tab: no other control character (NUL, BEL,
    backspace, carriage return, ESC, DEL, ...) gets through. *)
Theorem sanitizeTTYData_output_has_no_control_bytes (data : list byte) :
  Forall (fun b => 0x80 <= b2z b \/ plain b)
         (sanitizeTTYData inPrintRanges data).
Proof.
  rewrite sanitizeTTYData_encoded. apply Forall_forall. intros b Hin.
  apply in_flat_map in Hin. destruct Hin as [r [Hr Hin]].
  pose proof (kept_runes_kept inPrintRanges (stripANSI data)) as Hkept.
  pose proof (kept_runes_valid inPrintRanges (stripANSI data)) as Hvalid.
  rewrite Forall_forall in Hkept, Hvalid.
  specialize (Hkept r Hr). specialize (Hvalid r Hr).
  destruct (Z.lt_ge_cases r 0x80) as [Hlo|Hhi].
  - right. assert (Hr7 : 0 <= r <= 0x7F) by (destruct Hvalid; lia).
    rewrite EncodeRune_1 in Hin by exact Hr7.
    destruct Hin as [<-|[]]. unfold plain. rewrite b2z_z2b by lia.
    rewrite kept_latin1 in Hkept by lia.
    unfold unicode.latin1Print in Hkept.
    destruct (Z.eqb_spec r 10); [lia|].
    destruct (Z.eqb_spec r 9); [lia|].
    cbn [orb] in Hkept.
    destruct (Z.leb_spec 32 r); destruct (Z.leb_spec r 126);
      cbn [andb orb] in Hkept; lia.
  - left. pose proof (EncodeRune_high Hvalid Hhi) as Hb.
    rewrite Forall_forall in Hb. apply Hb. exact Hin.
Qed.
End SanitizerBounds.

(** *** Text in front of a chunk *)

Lemma runes_ascii_app (a s : list byte) :
  Forall (fun b => b2z b < 0x80) a ->
  runes (a ++ s) = map ascii_item a ++ runes s.
Proof.
  induction 1 as [|b a Hb Ha IH]; [reflexivity|].
  cbn [app map]. rewrite runes_step, DecodeRune_eq1 by exact Hb.
  cbn [fst snd firstn skipn]. rewrite IH. reflexivity.
Qed.

Lemma bytes_of_ascii_items a : bytes_of (map ascii_item a) = a.
Proof.
  induction a as [|b a IH]; [reflexivity|].
  unfold bytes_of in *. cbn [map flat_map ascii_item ibytes app].
  rewrite IH. reflexivity.
Qed.

Lemma deleteAll_app_no_introducer l1 l2 :
  Forall (fun it => ansi.introducer (irune it) = false) l1 ->
  regexp.deleteAll ansi.ansiRegexp (l1 ++ l2)
  = bytes_of l1 ++ regexp.deleteAll ansi.ansiRegexp l2.
Proof.
  induction 1 as [|it l Hit Hl IH]; [reflexivity|].
  cbn [app]. rewrite regexp.deleteAll_equation_2.
  rewrite match_len_no_introducer by exact Hit.
  rewrite IH. unfold bytes_of. cbn [flat_map].
  rewrite app_assoc. reflexivity.
Qed.

Section PlainPrefix.
Variable inPrintRanges : rune -> bool.

(** X9.  Plain text (printable ASCII, newlines, tabs) in front of a chunk
    is passed on as it is and has no effect on what becomes of the rest:
    [sanitizeTTYData (a ++ b) = a ++ sanitizeTTYData b]. *)
Theorem sanitizeTTYData_keeps_plain_prefix (a b : list byte) :
  Forall plain a ->
  sanitizeTTYData inPrintRanges (a ++ b)
  = a ++ sanitizeTTYData inPrintRanges b.
Proof.
  intros Hplain.
  assert (Hascii : Forall (fun x => b2z x < 0x80) a).
  { eapply Forall_impl; [|exact Hplain]. intros x. apply plain_ascii. }
  assert (Hstrip : stripANSI (a ++ b) = a ++ stripANSI b).
  { unfold stripANSI, regexp.ReplaceAllString_empty.
    rewrite (runes_ascii_app b Hascii).
    rewrite deleteAll_app_no_introducer, bytes_of_ascii_items; [reflexivity|].
    apply Forall_map. eapply Forall_impl; [|exact Hplain].
    intros x Hx. cbn [ascii_item irune].
    apply (kept_not_introducer inPrintRanges), plain_kept, Hx. }
  unfold sanitizeTTYData. rewrite Hstrip.
  rewrite !(filterNonPrintable_written inPrintRanges).
  rewrite (runes_ascii_app (stripANSI b) Hascii), flat_map_app. f_equal.
  clear Hstrip Hascii.
  induction Hplain as [|x l Hx Hl IH]; cbn [map flat_map]; [reflexivity|].
  unfold written at 1. cbn [ascii_item irune].
  rewrite (plain_kept inPrintRanges Hx).
  pose proof (b2z_range x).
  rewrite EncodeRune_1 by (apply plain_ascii in Hx; lia).
  rewrite z2b_b2z, IH. reflexivity.
Qed.
End PlainPrefix.

Lemma sanitizeTTYData_keeps_plain_prefix_witness :
  sanitizeTTYData onlyReplacement (str "ok " ++ x1b :: str "[1mdone")
  = str "ok " ++ sanitizeTTYData onlyReplacement (x1b :: str "[1mdone").
Proof.
  apply sanitizeTTYData_keeps_plain_prefix.
  repeat constructor; unfold plain; vm_compute; intuition discriminate.
Defined.

(** *** Control sequences with one parameter *)

(** A search fails when what remains to be matched fails on every suffix
    of the input. *)
Lemma backtrack_fails (r : regexp.re) :
  forall (s : list item) (k : list item -> option (list item)),
    (forall pre s', s = pre ++ s' -> k s' = None) ->
    regexp.backtrack r s k = None.
Proof.
  induction r as [|p|a IHa b IHb|a IHa b IHb|a IHa|a IHa]; intros s k Hk.
  - apply (Hk [] s). reflexivity.
  - cbn [regexp.backtrack]. destruct s as [|it t]; [reflexivity|].
    destruct (p (irune it)); [|reflexivity].
    apply (Hk [it] t). reflexivity.
  - cbn [regexp.backtrack]. apply IHa. intros pre s' ->.
    apply IHb. intros pre2 s'' ->. apply (Hk (pre ++ pre2) s'').
    rewrite app_assoc. reflexivity.
  - cbn [regexp.backtrack]. rewrite (IHa s k Hk). apply IHb. exact Hk.
  - cbn [regexp.backtrack]. rewrite (IHa s k Hk). apply (Hk [] s). reflexivity.
  - cbn [regexp.backtrack]. generalize (length s) as fuel. intros fuel.
    revert s Hk. induction fuel as [|fuel IHf]; intros s Hk.
    + apply (Hk [] s). reflexivity.
    + rewrite IHa; [apply (Hk [] s); reflexivity|].
      intros pre s' ->.
      destruct (Nat.ltb (length s') (length (pre ++ s'))); [|reflexivity].
      apply IHf. intros pre2 s'' ->. apply (Hk (pre ++ pre2) s'').
      rewrite app_assoc. reflexivity.
Qed.

Lemma backtrack_Cat a b s k :
  regexp.backtrack (regexp.Cat a b) s k
  = regexp.backtrack a s (fun s' => regexp.backtrack b s' k).
Proof. reflexivity. Qed.

(** Without a BEL in the input the first alternative of the pattern
    fails. *)
Lemma oscBody_needs_bel (s : list item) k :
  Forall (fun it => irune it <> 7) s ->
  regexp.backtrack ansi.oscBody s k = None.
Proof.
  intros Hs. unfold ansi.oscBody. rewrite backtrack_Cat.
  apply backtrack_fails. intros pre s' ->.
  apply Forall_app in Hs. destruct Hs as [_ Hs].
  cbn [regexp.backtrack].
  destruct s' as [|it t]; [reflexivity|].
  inversion Hs as [|? ? Hit _]; subst.
  unfold ansi.bel, oneOf. cbn [existsb].
  destruct (Z.eqb_spec (irune it) 7); [contradiction|]. reflexivity.
Qed.

(** The characters of the class of prefixes are neither digits nor final
    characters. *)
Lemma prefix_not_digit r : ansi.digit r = true -> ansi.prefix r = false.
Proof.
  unfold ansi.digit, ansi.prefix, inRange, oneOf, ch. cbn.
  intros H. apply andb_true_iff in H. destruct H as [H1 H2].
  apply Z.leb_le in H1. apply Z.leb_le in H2.
  repeat match goal with
         | |- context [Z.eqb r ?c] => destruct (Z.eqb_spec r c); [lia|]
         end.
  reflexivity.
Qed.

Lemma prefix_not_final r : ansi.final r = true -> ansi.prefix r = false.
Proof.
  intros H. unfold ansi.prefix, oneOf, ch. cbn.
  repeat match goal with
         | |- context [Z.eqb r ?c] =>
             destruct (Z.eqb_spec r c); [subst r; vm_compute in H; discriminate|]
         end.
  reflexivity.
Qed.

Lemma semicolon_not_final r : ansi.final r = true -> ansi.semicolon r = false.
Proof.
  intros H. unfold ansi.semicolon, oneOf, ch. cbn.
  destruct (Z.eqb_spec r 59); [subst r; vm_compute in H; discriminate|].
  reflexivity.
Qed.

Lemma ltb_succ n : Nat.ltb n (S n) = true.
Proof. apply Nat.ltb_lt. lia. Qed.

Lemma digit_not_bel r : ansi.digit r = true -> r <> 7.
Proof. intros H ->. vm_compute in H. discriminate. Qed.
Lemma final_not_bel r : ansi.final r = true -> r <> 7.
Proof. intros H ->. vm_compute in H. discriminate. Qed.

Ltac class_facts :=
  repeat match goal with
  | H : ?p (b2z ?b) = _ |- context [?p (b2z ?b)] => rewrite H
  end.

Ltac run_regexp :=
  repeat first
    [ progress class_facts
    | rewrite ltb_succ
    | progress cbn [regexp.backtrack regexp.repeat_range regexp.upto irune
                    ascii_item length map app] ].

Lemma ansiPattern_matches (D : list byte) (f : byte) (T : list item) :
  (length D <= 4)%nat ->
  Forall (fun d => ansi.digit (b2z d) = true) D ->
  ansi.final (b2z f) = true -> ansi.digit (b2z f) = false ->
  Forall (fun it => irune it <> 7) T ->
  regexp.backtrack ansi.ansiRegexp
    (ascii_item x1b :: ascii_item "["%byte :: map ascii_item D ++ ascii_item f :: T)
    (fun rest => Some rest) = Some T.
Proof.
  intros Hlen HD Hf Hfd HT.
  pose proof (semicolon_not_final _ Hf) as Hsc.
  pose proof (prefix_not_final _ Hf) as Hpf.
  pose proof (@final_not_bel _ Hf) as Hfb.
  assert (Hesc : ansi.introducer (b2z x1b) = true) by reflexivity.
  assert (Hbr : ansi.prefix (b2z "["%byte) = true) by reflexivity.
  unfold ansi.ansiRegexp, ansi.ansiPattern.
  destruct D as [|d1 [|d2 [|d3 [|d4 [|d5 D]]]]]; cbn [length] in Hlen; try lia;
    repeat match goal with
           | H : Forall _ (_ :: _) |- _ => inversion H; subst; clear H
           end;
    repeat match goal with
           | H : ansi.digit (b2z ?d) = true |- _ =>
               lazymatch goal with
               | _ : ansi.prefix (b2z d) = false |- _ => fail
               | _ => pose proof (prefix_not_digit _ H);
                      pose proof (@digit_not_bel _ H)
               end
           end;
    run_regexp;
    (rewrite oscBody_needs_bel by (repeat constructor; cbn [irune ascii_item]; assumption));
    unfold ansi.csiBody; run_regexp; reflexivity.
Qed.

Lemma final_ascii r : ansi.final r = true -> 0 <= r < 0x80.
Proof.
  unfold ansi.final, ansi.digit, inRange, oneOf, ch. cbn. lia.
Qed.

Lemma digit_ascii r : ansi.digit r = true -> 0 <= r < 0x80.
Proof.
  unfold ansi.digit, inRange, ch. cbn. lia.
Qed.

(** X10.  A control sequence made of ESC, "[", at most four digits and a
    final character other than a digit (a letter such as "m", "H", "K",
    "J", or one of "=", ">", "<", "~") is removed by [stripANSI], and
    nothing else with it, when no BEL follows in the string: what comes
    after it is stripped as if it stood alone. *)
Theorem stripANSI_removes_control_sequence
  (digits : list byte) (final : byte) (t : list byte) :
  (length digits <= 4)%nat ->
  Forall (fun d => ansi.digit (b2z d) = true) digits ->
  ansi.final (b2z final) = true ->
  ansi.digit (b2z final) = false ->
  Forall (fun it => irune it <> 7) (runes t) ->
  stripANSI (x1b :: "["%byte :: digits ++ final :: t) = stripANSI t.
Proof.
  intros Hlen HD Hf Hfd Ht.
  unfold stripANSI, regexp.ReplaceAllString_empty.
  change (x1b :: "["%byte :: digits ++ final :: t)
    with ((x1b :: "["%byte :: digits) ++ final :: t).
  replace ((x1b :: "["%byte :: digits) ++ final :: t)
    with ((x1b :: "["%byte :: digits ++ [final]) ++ t)
    by (cbn [app]; rewrite <- app_assoc; reflexivity).
  rewrite runes_ascii_app.
  2:{ constructor; [vm_compute; reflexivity|].
      constructor; [vm_compute; reflexivity|].
      apply Forall_app. split.
      - eapply Forall_impl; [|exact HD]. intros d Hd.
        apply digit_ascii in Hd. lia.
      - constructor; [|constructor]. apply final_ascii in Hf. lia. }
  cbn [map app]. rewrite map_app. cbn [map].
  rewrite regexp.deleteAll_equation_2. unfold regexp.match_len.
  rewrite <- app_assoc. cbn [app].
  rewrite (@ansiPattern_matches digits final (runes t) Hlen HD Hf Hfd Ht).
  cbn [length]. rewrite length_app, length_map. cbn [length].
  replace (S (S (length digits + S (length (runes t)))) - length (runes t))%nat
    with (S (S (S (length digits)))) by lia.
  replace (ascii_item "["%byte :: map ascii_item digits
             ++ ascii_item final :: runes t)
    with ((ascii_item "["%byte :: map ascii_item digits ++ [ascii_item final])
            ++ runes t)
    by (cbn [app]; rewrite <- app_assoc; reflexivity).
  assert (Hpre : length (ascii_item "["%byte :: map ascii_item digits
                           ++ [ascii_item final])
                 = S (S (length digits))).
  { cbn [length]. rewrite length_app, length_map. cbn [length]. lia. }
  rewrite skipn_app, Hpre, Nat.sub_diag, skipn_all2 by (rewrite Hpre; lia).
  reflexivity.
Qed.

Lemma stripANSI_removes_control_sequence_witness :
  stripANSI (x1b :: "["%byte :: str "31" ++ "m"%byte :: str "Hello")
  = stripANSI (str "Hello").
Proof.
  apply stripANSI_removes_control_sequence.
  - simpl. lia.
  - repeat constructor.
  - reflexivity.
  - reflexivity.
  - vm_compute. repeat constructor; discriminate.
Defined.

(** ** [wrapCommand] and [RunConsoleClient]: more *)

Lemma mux_events_are_not (e : event) (l : list mux_event) :
  (forall m, e <> EvMux m) -> ~ In e (map EvMux l).
Proof.
  intros Hne Hin. apply in_map_iff in Hin. destruct Hin as [m [Hm _]].
  apply (Hne m). symmetry. exact Hm.
Qed.

(** X11.  Whatever happens (no command, no pty, no raw mode, a panic of the
    client or of the multiplexer, or a normal end), [wrapCommand] leaves
    the terminal in the mode it found it in, unless [term.Restore] itself
    fails. *)
Theorem wrapCommand_leaves_the_terminal_mode
  (h : host) (command : list string) (t0 : termState) :
  restoreFails h = false ->
  tty (snd (wrapCommand h command t0)) = t0.
Proof.
  intros Hrestore.
  destruct command as [|c0 args]; [reflexivity|].
  destruct (ptyStartErr h) as [ep|] eqn:Hp.
  { rewrite (wrapCommand_pty_failure h c0 args t0 Hp). reflexivity. }
  destruct (makeRawErr h) as [er|] eqn:Hr.
  { rewrite (wrapCommand_raw_failure h c0 args t0 Hp Hr). reflexivity. }
  rewrite (wrapCommand_session h c0 args t0 Hp Hr).
  destruct (announcePanic h); cbn [snd tty]; unfold restored;
    rewrite Hrestore; reflexivity.
Qed.

Lemma wrapCommand_leaves_the_terminal_mode_witness :
  tty (snd (wrapCommand hostMuxPanics ["zsh"%string] 0xFF)) = 0xFF.
Proof.
  apply (@wrapCommand_leaves_the_terminal_mode hostMuxPanics ["zsh"%string] 0xFF).
  reflexivity.
Defined.

(** X12.  Once the pty is started, every way out of [wrapCommand] (raw mode
    refused, a panic, a normal end) ends with the same clean-up, in this
    order and once each: the signal subscription is stopped, its channel is
    closed, the pty is closed. *)
Theorem wrapCommand_always_cleans_up
  (h : host) (c0 : string) (args : list string) (t0 : termState) :
  ptyStartErr h = None ->
  exists body : list event,
    trace (snd (wrapCommand h (c0 :: args) t0))
    = body ++ [EvSignalStop; EvCloseSignalChan; EvPtyClose]
    /\ In EvPtyStart body
    /\ ~ In EvSignalStop body
    /\ ~ In EvCloseSignalChan body
    /\ ~ In EvPtyClose body.
Proof.
  intros Hp.
  assert (Hmux : forall e, (forall m, e <> EvMux m) ->
                           ~ In e (map EvMux (muxEvents h)))
    by (intros e; apply mux_events_are_not).
  destruct (makeRawErr h) as [er|] eqn:Hr.
  { rewrite (wrapCommand_raw_failure h c0 args t0 Hp Hr).
    exists (prologue c0 args). cbn [snd trace]. split; [reflexivity|].
    split; [simpl; tauto|].
    repeat split; simpl; intuition discriminate. }
  rewrite (wrapCommand_session h c0 args t0 Hp Hr).
  destruct (announcePanic h).
  - exists (prologue c0 args ++ startup c0 args ++ [EvRestore t0]).
    cbn [snd trace]. split; [reflexivity|].
    split; [simpl; tauto|].
    repeat split; simpl; intuition discriminate.
  - exists (prologue c0 args ++ startup c0 args
              ++ map EvMux (muxEvents h) ++ [EvRestore t0]).
    cbn [snd trace]. split.
    { unfold epilogue. rewrite <- !app_assoc. reflexivity. }
    split; [simpl; tauto|].
    repeat split; intros Hin;
      repeat (apply in_app_or in Hin; destruct Hin as [Hin|Hin]);
      try (simpl in Hin; intuition discriminate);
      (eapply Hmux; [|exact Hin]; intros m; discriminate).
Qed.

Lemma wrapCommand_always_cleans_up_witness :
  exists body : list event,
    trace (snd (wrapCommand hostNoTTY ["zsh"%string] 5))
    = body ++ [EvSignalStop; EvCloseSignalChan; EvPtyClose]
    /\ In EvPtyStart body
    /\ ~ In EvSignalStop body
    /\ ~ In EvCloseSignalChan body
    /\ ~ In EvPtyClose body.
Proof.
  apply (@wrapCommand_always_cleans_up hostNoTTY "zsh" [] 5). reflexivity.
Defined.

(** X13.  The only errors [RunConsoleClient] returns are the one of
    [runIPCClient] and the one of [pty.Start]; in both cases raw mode was
    not asked for.  Nothing that happens once the session runs is returned:
    the function then returns [nil] or panics. *)
Theorem RunConsoleClient_returns_setup_errors_only
  (ipcErr : option error) (h : host) (args : list string) (t0 : termState)
  (e : error) :
  fst (RunConsoleClient ipcErr h args t0) = Returned (Some e) ->
  (ipcErr = Some e \/ (ipcErr = None /\ ptyStartErr h = Some e))
  /\ ~ In EvMakeRaw (trace (snd (RunConsoleClient ipcErr h args t0))).
Proof.
  unfold RunConsoleClient. intros Hret.
  destruct ipcErr as [ei|].
  { cbn [fst snd trace] in *. split; [left; congruence|]. simpl. tauto. }
  destruct args as [|c0 args]; [discriminate|].
  destruct (ptyStartErr h) as [ep|] eqn:Hp.
  { rewrite (wrapCommand_pty_failure h c0 args t0 Hp) in *.
    cbn [fst snd trace] in *. split; [right; split; congruence|].
    simpl. intuition discriminate. }
  exfalso.
  destruct (makeRawErr h) as [er|] eqn:Hr.
  { rewrite (wrapCommand_raw_failure h c0 args t0 Hp Hr) in Hret.
    discriminate. }
  rewrite (wrapCommand_session h c0 args t0 Hp Hr) in Hret.
  destruct (announcePanic h); [discriminate|].
  destruct (muxPanic h); discriminate.
Qed.

Lemma RunConsoleClient_returns_setup_errors_only_witness :
  (None = Some (ErrorString "no pty available")
   \/ (@None error = None
       /\ ptyStartErr hostNoPty = Some (ErrorString "no pty available")))
  /\ ~ In EvMakeRaw
          (trace (snd (RunConsoleClient None hostNoPty ["zsh"%string] 5))).
Proof.
  apply (@RunConsoleClient_returns_setup_errors_only
           None hostNoPty ["zsh"%string] 5 (ErrorString "no pty available")).
  reflexivity.
Defined.

(** ** [initVectorIndex] over a sequence of calls *)

(** X14.  Starting without an index, any sequence of calls of
    [initVectorIndex] makes one index and loads paths at most once: the
    calls into the embedding package are those of the first call, with the
    paths of the first call (none in console mode); the paths given to
    later calls are never loaded, and every later call reports success. *)
Theorem initVectorIndex_only_the_first_call_loads
  (Index : Type) (newIndex : Index) (setOutput : Index -> Index)
  (loadPaths : Index -> list string -> Index * option error)
  (this : ButterfishCtx Index) (paths : list string)
  (later : list (list string)) :
  VectorIndex this = None ->
  let run := initAgain newIndex setOutput loadPaths this (paths :: later) in
  calls (snd run)
  = calls this ++ [CallNewIndex]
      ++ (if Verbose this then [CallSetOutput] else [])
      ++ (if InConsoleMode this then []
          else [CallLoadPaths (pathsOrCwd paths)])
  /\ fst run
     = fst (initVectorIndex newIndex setOutput loadPaths this paths)
         :: map (fun _ => None) later
  /\ (InConsoleMode this = true -> Forall (fun e => e = None) (fst run)).
Proof.
  intros Hnil run. subst run. cbn [initAgain].
  pose proof (@initVectorIndex_sets Index newIndex setOutput loadPaths
                this paths) as Hset.
  destruct (initVectorIndex newIndex setOutput loadPaths this paths)
    as [e this1] eqn:Hfirst.
  cbn [snd fst] in *.
  rewrite (@initAgain_set Index newIndex setOutput loadPaths this1 later Hset).
  cbn [snd fst].
  assert (Hcalls : calls this1
    = calls this ++ [CallNewIndex]
        ++ (if Verbose this then [CallSetOutput] else [])
        ++ (if InConsoleMode this then []
            else [CallLoadPaths (pathsOrCwd paths)])
    /\ (InConsoleMode this = true -> e = None)).
  { clear Hset. unfold initVectorIndex in Hfirst. rewrite Hnil in Hfirst.
    unfold pathsOrCwd.
    destruct (Verbose this), (InConsoleMode this); cbn in Hfirst;
      try (inversion Hfirst; subst; cbn [calls];
           rewrite <- ?app_assoc; split; [reflexivity|auto; discriminate]);
      match type of Hfirst with
      | context [loadPaths ?i ?p] =>
          destruct (loadPaths i p) as [i' [err|]]
      end;
      inversion Hfirst; subst; cbn [calls];
      rewrite <- ?app_assoc; (split; [reflexivity|discriminate]). }
  destruct Hcalls as [Hcalls Hconsole].
  split; [exact Hcalls|]. split; [reflexivity|].
  intros Hmode. constructor; [auto|].
  apply Forall_forall. intros x Hx. apply in_map_iff in Hx.
  destruct Hx as [y [Hy _]]. symmetry. exact Hy.
Qed.

Lemma initVectorIndex_only_the_first_call_loads_witness :
  let this := Ctx true false (@None (list string)) [] in
  let run := initAgain [] (fun i => i) loadOrFail this
                       ([] :: [["/nonexistent"%string]; ["docs"%string]]) in
  calls (snd run)
  = calls this ++ [CallNewIndex]
      ++ (if Verbose this then [CallSetOutput] else [])
      ++ (if InConsoleMode this then []
          else [CallLoadPaths (pathsOrCwd [])])
  /\ fst run
     = fst (initVectorIndex [] (fun i => i) loadOrFail this [])
         :: map (fun _ => None) [["/nonexistent"%string]; ["docs"%string]]
  /\ (InConsoleMode this = true -> Forall (fun e => e = None) (fst run)).
Proof.
  apply (@initVectorIndex_only_the_first_call_loads
           (list string) [] (fun i => i) loadOrFail
           (Ctx true false None []) []
           [["/nonexistent"%string]; ["docs"%string]]).
  reflexivity.
Defined.

(** ** [initLLM]: the client it returns *)

(** X15.  A client that [initLLM] returns is never the one the
    configuration supplies: it is the GPT client made from the token and
    the verbosity of the configuration, the token is not empty, no client
    was supplied and no error comes with it. *)
Theorem initLLM_returns_only_its_own_client
  (config : ButterfishConfig) (llm : LLM) :
  fst (initLLM config) = Some llm ->
  llm = GPT (OpenAIToken config) (cfgVerbose config)
  /\ OpenAIToken config <> ""%string
  /\ LLMClient config = None
  /\ snd (initLLM config) = None.
Proof.
  intros Hret. pose proof (initLLM_cases config) as Hcases.
  destruct (is_empty (OpenAIToken config)) eqn:Htok,
           (LLMClient config) as [c|] eqn:Hc.
  - destruct Hcases as [msg Hm]. rewrite Hm in Hret. discriminate.
  - rewrite Hcases in Hret. discriminate.
  - destruct Hcases as [msg Hm]. rewrite Hm in Hret. discriminate.
  - rewrite Hcases in *. cbn [fst snd] in *.
    split; [congruence|]. split; [|split; reflexivity].
    intros Hempty. unfold is_empty in Htok. rewrite Hempty in Htok.
    discriminate.
Qed.

Lemma initLLM_returns_only_its_own_client_witness :
  GPT "sk-token" true
  = GPT (OpenAIToken (Config true "sk-token" None))
        (cfgVerbose (Config true "sk-token" None))
  /\ OpenAIToken (Config true "sk-token" None) <> ""%string
  /\ LLMClient (Config true "sk-token" None) = None
  /\ snd (initLLM (Config true "sk-token" None)) = None.
Proof.
  apply (@initLLM_returns_only_its_own_client
           (Config true "sk-token" None) (GPT "sk-token" true)).
  reflexivity.
Defined.


(** ** Setting up: [initLLM], the prompt library, [NewButterfish],
    [RunConsole] *)

(** With styles, [initLLM] answers on the configuration in full as it does
    on the three fields it decides by; without, the branch that builds the
    GPT client panics.  The only call it makes is [NewGPT]. *)
Lemma initLLM_styled_initLLM (config : FullConfig) (tr : list setup_call) :
  let c := llmConfig config in
  initLLM_styled config tr
  = match fst (initLLM c), Styles config with
    | Some (GPT token verbose), None => (Panics nilDereference, tr)
    | Some (GPT token verbose), Some _ =>
        (Results (initLLM c), tr ++ [CallNewGPT token verbose])
    | _, _ => (Results (initLLM c), tr)
    end.
Proof.
  intros c. subst c. unfold initLLM_styled, initLLM, func.
  destruct (is_empty (OpenAIToken (llmConfig config))),
           (LLMClient (llmConfig config)) as [[token verbose|n]|];
    cbn; try reflexivity.
  destruct (Styles config); reflexivity.
Qed.

(** The three ways [NewDiskPromptLibrary] goes. *)
Lemma NewDiskPromptLibrary_cases (m : machine) (path : string) (verbose : bool)
      (tr : list setup_call) :
  NewDiskPromptLibrary m path verbose tr
  = if LibraryFileExists m path then
      match Load m path with
      | Some err =>
          (Results (None, Some err),
           tr ++ [CallNewPromptLibrary path verbose; CallLibraryFileExists;
                  CallLoad])
      | None =>
          (Results (Some (DiskLib path verbose), None),
           tr ++ [CallNewPromptLibrary path verbose; CallLibraryFileExists;
                  CallLoad; CallReplacePrompts; CallSave])
      end
    else
      (Results (Some (DiskLib path verbose), None),
       tr ++ [CallNewPromptLibrary path verbose; CallLibraryFileExists;
              CallReplacePrompts; CallSave; CallFprintf (wroteLibrary path)]).
Proof.
  unfold NewDiskPromptLibrary, func, andThen, did, result, next.
  destruct (LibraryFileExists m path); [destruct (Load m path)|];
    cbn; rewrite <- ?app_assoc; reflexivity.
Qed.

Ltac not_among :=
  cbn [In]; intuition (try discriminate; try congruence).

(** X16.  [NewDiskPromptLibrary] never panics.  It saves the library file
    exactly when it returns no error, and then returns the library of the
    given path; an error is the error of [Load] on a file that is there,
    and then the defaults are not put in, nothing is saved and nothing is
    printed.  [Wrote prompt library] is printed exactly when the file was
    not there; [Load] is called exactly when it was. *)
Theorem NewDiskPromptLibrary_saves_unless_load_fails
  (m : machine) (path : string) (verbose : bool) :
  exists (lib : option DiskPromptLibrary) (err : option error)
         (made : list setup_call),
    NewDiskPromptLibrary m path verbose [] = (Results (lib, err), made)
    /\ (err = None <-> In CallSave made)
    /\ (err = None <-> lib = Some (DiskLib path verbose))
    /\ (err <> None ->
        lib = None /\ LibraryFileExists m path = true /\ Load m path = err
        /\ ~ In CallReplacePrompts made
        /\ forall text, ~ In (CallFprintf text) made)
    /\ (In (CallFprintf (wroteLibrary path)) made
        <-> LibraryFileExists m path = false)
    /\ (In CallLoad made <-> LibraryFileExists m path = true).
Proof.
  rewrite NewDiskPromptLibrary_cases.
  destruct (LibraryFileExists m path) eqn:Hexists;
    [destruct (Load m path) as [e|] eqn:Hload|];
    do 3 eexists; (split; [reflexivity|]); cbn [app];
    repeat split; try not_among.
Qed.

(** The ways [initPromptLibrary] goes. *)
Lemma initPromptLibrary_cases (m : machine) (config : FullConfig)
      (tr : list setup_call) :
  initPromptLibrary m config tr
  = match Styles config, cfgPromptLibrary config with
    | None, _ => (Panics nilDereference, tr)
    | Some _, Some l => (Results (Some l, None), tr)
    | Some _, None =>
        let tr1 := tr ++ [CallExpand (PromptLibraryPath config)] in
        match homedir_Expand m (PromptLibraryPath config) with
        | (_, Some e) => (Results (None, Some e), tr1)
        | (promptPath, None) =>
            match NewDiskPromptLibrary m promptPath
                    (cfgVerbose (llmConfig config)) tr1 with
            | (Results r, tr2) =>
                (Results (Some (DiskLibrary (fst r)), snd r), tr2)
            | (Panics v, tr2) => (Panics v, tr2)
            end
        end
    end.
Proof.
  unfold initPromptLibrary, func, andThen, deref, result, did, call.
  destruct (Styles config); [|reflexivity].
  destruct (cfgPromptLibrary config); [reflexivity|].
  destruct (homedir_Expand m (PromptLibraryPath config)) as [p [e|]];
    [reflexivity|].
  destruct (NewDiskPromptLibrary m p (cfgVerbose (llmConfig config))
              (tr ++ [CallExpand (PromptLibraryPath config)]))
    as [[r|v] tr2]; reflexivity.
Qed.

(** X17.  A prompt library that the configuration supplies is returned as
    it is, and neither the home directory nor the disk is asked; but
    [initPromptLibrary] reads the styles first, so that without styles it
    panics even then. *)
Theorem initPromptLibrary_returns_the_supplied_library
  (m : machine) (config : FullConfig) (l : PromptLibrary) :
  cfgPromptLibrary config = Some l ->
  initPromptLibrary m config []
  = (match Styles config with
     | Some _ => Results (Some l, None)
     | None => Panics nilDereference
     end, []).
Proof.
  intros Hl. rewrite initPromptLibrary_cases, Hl.
  destruct (Styles config); reflexivity.
Qed.

Lemma initPromptLibrary_returns_the_supplied_library_witness :
  let config := FullCfg (Config false "" None) None None "~/prompts.yaml"
                        (Some (SuppliedLibrary 1)) in
  initPromptLibrary brokenLibrary config []
  = (match Styles config with
     | Some _ => Results (Some (SuppliedLibrary 1), None)
     | None => Panics nilDereference
     end, []).
Proof.
  apply (@initPromptLibrary_returns_the_supplied_library brokenLibrary
           (FullCfg (Config false "" None) None None "~/prompts.yaml"
                    (Some (SuppliedLibrary 1)))
           (SuppliedLibrary 1)).
  reflexivity.
Defined.

(** X18.  When [initPromptLibrary] returns an error the library file has
    not been written.  The error is the one of [homedir.Expand], and the
    library returned is nil, or it is the one of [Load], and the library
    returned is not nil: it is an interface value around the nil pointer
    of [NewDiskPromptLibrary]. *)
Theorem initPromptLibrary_error
  (m : machine) (config : FullConfig)
  (lib : option PromptLibrary) (e : error) :
  fst (initPromptLibrary m config []) = Results (lib, Some e) ->
  let made := snd (initPromptLibrary m config []) in
  ~ In CallSave made
  /\ ~ In CallReplacePrompts made
  /\ ((lib = None
       /\ snd (homedir_Expand m (PromptLibraryPath config)) = Some e
       /\ made = [CallExpand (PromptLibraryPath config)])
      \/ (lib = Some (DiskLibrary None)
          /\ exists promptPath,
               homedir_Expand m (PromptLibraryPath config)
               = (promptPath, None)
               /\ LibraryFileExists m promptPath = true
               /\ Load m promptPath = Some e)).
Proof.
  rewrite initPromptLibrary_cases.
  destruct (Styles config); [|discriminate].
  destruct (cfgPromptLibrary config); [discriminate|].
  destruct (homedir_Expand m (PromptLibraryPath config)) as [p [e'|]] eqn:Hx.
  - cbn. intros Hret. inversion Hret; subst.
    split; [not_among|]. split; [not_among|]. left. auto.
  - cbv zeta. rewrite NewDiskPromptLibrary_cases.
    destruct (LibraryFileExists m p) eqn:Hexists;
      [destruct (Load m p) as [e'|] eqn:Hload|]; cbn;
      intros Hret; inversion Hret; subst.
    split; [not_among|]. split; [not_among|]. right.
    split; [reflexivity|]. exists p. auto.
Qed.

Lemma initPromptLibrary_error_witness :
  let config := plainConfig "sk-token" in
  let e := ErrorString "yaml: unmarshal errors" in
  let made := snd (initPromptLibrary brokenLibrary config []) in
  ~ In CallSave made
  /\ ~ In CallReplacePrompts made
  /\ ((Some (DiskLibrary None) = None
       /\ snd (homedir_Expand brokenLibrary (PromptLibraryPath config))
          = Some e
       /\ made = [CallExpand (PromptLibraryPath config)])
      \/ (Some (DiskLibrary None) = Some (DiskLibrary None)
          /\ exists promptPath,
               homedir_Expand brokenLibrary (PromptLibraryPath config)
               = (promptPath, None)
               /\ LibraryFileExists brokenLibrary promptPath = true
               /\ Load brokenLibrary promptPath = Some e)).
Proof.
  apply (@initPromptLibrary_error brokenLibrary (plainConfig "sk-token")
           (Some (DiskLibrary None))
           (ErrorString "yaml: unmarshal errors")).
  reflexivity.
Defined.

(** X19.  [NewButterfish] fails for every configuration that supplies an
    LLM client, with or without a token, with or without styles, and it
    fails before anything is called: no client is built, no prompt library
    is set up. *)
Theorem NewButterfish_rejects_a_supplied_client
  (m : machine) (config : FullConfig) (client : LLM) :
  LLMClient (llmConfig config) = Some client ->
  exists msg : string,
    NewButterfish m config [] = (Results (None, Some (ErrorString msg)), []).
Proof.
  intros Hc. unfold NewButterfish, func, andThen, call.
  rewrite initLLM_styled_initLLM. cbv zeta.
  pose proof (initLLM_cases (llmConfig config)) as Hcases.
  rewrite Hc in Hcases.
  destruct (is_empty (OpenAIToken (llmConfig config)));
    destruct Hcases as [msg Hm]; rewrite Hm; exists msg; reflexivity.
Qed.

Lemma NewButterfish_rejects_a_supplied_client_witness :
  exists msg : string,
    NewButterfish freshMachine
      (FullCfg (Config true "" (Some (Supplied 7))) None None "" None) []
    = (Results (None, Some (ErrorString msg)), []).
Proof.
  apply (@NewButterfish_rejects_a_supplied_client freshMachine
           (FullCfg (Config true "" (Some (Supplied 7))) None None "" None)
           (Supplied 7)).
  reflexivity.
Defined.

(** How [NewButterfish] goes when [initLLM] lets it pass. *)
Lemma NewButterfish_cases (m : machine) (config : FullConfig)
      (tr : list setup_call) :
  NewButterfish m config tr
  = match initLLM_styled config tr with
    | (Panics v, tr1) => (Panics v, tr1)
    | (Results (_, Some e), tr1) => (Results (None, Some e), tr1)
    | (Results (llmClient, None), tr1) =>
        match initPromptLibrary m config tr1 with
        | (Panics v, tr2) => (Panics v, tr2)
        | (Results (_, Some e), tr2) => (Results (None, Some e), tr2)
        | (Results (promptLibrary, None), tr2) =>
            (Results (Some (Bfish config false promptLibrary llmClient
                                  Stdout false), None),
             tr2 ++ [CallWithCancel])
        end
    end.
Proof.
  unfold NewButterfish, func, andThen, call, result, did.
  destruct (initLLM_styled config tr) as [[[llm [e|]]|v] tr1];
    try reflexivity.
  destruct (initPromptLibrary m config tr1) as [[[lib [e|]]|v] tr2];
    reflexivity.
Qed.

(** What [initPromptLibrary] returns when it returns no error. *)
Lemma initPromptLibrary_success (m : machine) (config : FullConfig)
      (tr : list setup_call) (lib : option PromptLibrary) :
  fst (initPromptLibrary m config tr) = Results (lib, None) ->
  Styles config <> None
  /\ lib = match cfgPromptLibrary config with
           | Some l => Some l
           | None =>
               Some (DiskLibrary
                       (Some (DiskLib
                                (fst (homedir_Expand m
                                        (PromptLibraryPath config)))
                                (cfgVerbose (llmConfig config)))))
           end.
Proof.
  rewrite initPromptLibrary_cases.
  destruct (Styles config) as [st|]; [|discriminate].
  destruct (cfgPromptLibrary config) as [l|].
  { cbn. intros Hret. inversion Hret. split; [discriminate|reflexivity]. }
  cbv zeta.
  destruct (homedir_Expand m (PromptLibraryPath config)) as [p [e|]];
    [discriminate|].
  rewrite NewDiskPromptLibrary_cases.
  destruct (LibraryFileExists m p); [destruct (Load m p)|]; cbn;
    intros Hret; inversion Hret; split; (discriminate || reflexivity).
Qed.

(** A context comes from the two steps going well. *)
Lemma NewButterfish_inversion (m : machine) (config : FullConfig)
      (this : Butterfish) (err : option error) :
  fst (NewButterfish m config []) = Results (Some this, err) ->
  exists llm lib tr1 tr2,
    initLLM_styled config [] = (Results (llm, None), tr1)
    /\ initPromptLibrary m config tr1 = (Results (lib, None), tr2)
    /\ this = Bfish config false lib llm Stdout false
    /\ err = None.
Proof.
  rewrite NewButterfish_cases.
  destruct (initLLM_styled config []) as [[[llm [e|]]|v] tr1] eqn:Hllm;
    try discriminate.
  destruct (initPromptLibrary m config tr1) as [[[lib [e|]]|v] tr2] eqn:Hlib;
    try discriminate.
  cbn [fst]. intros Hret. inversion Hret.
  exists llm, lib, tr1, tr2. repeat split; congruence.
Qed.

(** The client [initLLM] lets through, on a configuration with styles or
    without. *)
Lemma initLLM_styled_client (config : FullConfig) (tr tr1 : list setup_call)
      (llm : option LLM) :
  initLLM_styled config tr = (Results (llm, None), tr1) ->
  LLMClient (llmConfig config) = None
  /\ llm = fst (initLLM (llmConfig config))
  /\ llm = if is_empty (OpenAIToken (llmConfig config)) then None
           else Some (GPT (OpenAIToken (llmConfig config))
                          (cfgVerbose (llmConfig config))).
Proof.
  rewrite initLLM_styled_initLLM. cbv zeta.
  pose proof (initLLM_cases (llmConfig config)) as Hcases.
  destruct (is_empty (OpenAIToken (llmConfig config))),
           (LLMClient (llmConfig config)) as [c|].
  - destruct Hcases as [msg Hm]. rewrite Hm. discriminate.
  - rewrite Hcases. cbn. intros Hret. inversion Hret. auto.
  - destruct Hcases as [msg Hm]. rewrite Hm. discriminate.
  - rewrite Hcases. cbn [fst].
    destruct (Styles config); [|discriminate].
    intros Hret. inversion Hret. auto.
Qed.

(** X20.  A context that [NewButterfish] returns comes without an error
    and is not in console mode.  Its configuration has styles and supplies
    no client; its client is what [initLLM] answers on the configuration,
    the GPT client of the token or, without a token, nil; its prompt
    library is not nil (nor an interface around a nil pointer): it is the
    supplied one, or one made for the expanded path. *)
Theorem NewButterfish_context
  (m : machine) (config : FullConfig)
  (this : Butterfish) (err : option error) :
  fst (NewButterfish m config []) = Results (Some this, err) ->
  err = None
  /\ ctxConfig this = config
  /\ ctxInConsoleMode this = false
  /\ ctxOut this = Stdout
  /\ Styles config <> None
  /\ LLMClient (llmConfig config) = None
  /\ ctxLLMClient this = fst (initLLM (llmConfig config))
  /\ (ctxLLMClient this = None <-> OpenAIToken (llmConfig config) = ""%string)
  /\ ctxPromptLibrary this
     = match cfgPromptLibrary config with
       | Some l => Some l
       | None =>
           Some (DiskLibrary
                   (Some (DiskLib
                            (fst (homedir_Expand m (PromptLibraryPath config)))
                            (cfgVerbose (llmConfig config)))))
       end.
Proof.
  intros Hret.
  destruct (NewButterfish_inversion m config Hret)
    as (llm & lib & tr1 & tr2 & Hllm & Hlib & Hthis & Herr).
  subst this err.
  cbn [ctxConfig ctxInConsoleMode ctxOut ctxLLMClient ctxPromptLibrary].
  destruct (initLLM_styled_client config [] Hllm) as (Hc & Hfst & Hcase).
  assert (Hlib' : fst (initPromptLibrary m config tr1) = Results (lib, None))
    by (rewrite Hlib; reflexivity).
  destruct (initPromptLibrary_success m config tr1 Hlib') as [Hst Hl].
  repeat split; try assumption; try reflexivity.
  - intros Hnil. apply String.eqb_eq. fold (is_empty (OpenAIToken (llmConfig config))).
    rewrite Hnil in Hcase.
    destruct (is_empty (OpenAIToken (llmConfig config)));
      [reflexivity|discriminate].
  - intros Hempty. rewrite Hcase. unfold is_empty. rewrite Hempty.
    reflexivity.
Qed.

Lemma NewButterfish_context_witness :
  let m := freshMachine in
  let config := plainConfig "sk-token" in
  let this :=
    Bfish config false
          (Some (DiskLibrary (Some (DiskLib "/home/u/~/prompts.yaml" false))))
          (Some (GPT "sk-token" false)) Stdout false in
  None = @None error
  /\ ctxConfig this = config
  /\ ctxInConsoleMode this = false
  /\ ctxOut this = Stdout
  /\ Styles config <> None
  /\ LLMClient (llmConfig config) = None
  /\ ctxLLMClient this = fst (initLLM (llmConfig config))
  /\ (ctxLLMClient this = None <-> OpenAIToken (llmConfig config) = ""%string)
  /\ ctxPromptLibrary this
     = match cfgPromptLibrary config with
       | Some l => Some l
       | None =>
           Some (DiskLibrary
                   (Some (DiskLib
                            (fst (homedir_Expand m (PromptLibraryPath config)))
                            (cfgVerbose (llmConfig config)))))
       end.
Proof.
  apply (@NewButterfish_context freshMachine (plainConfig "sk-token")
           (Bfish (plainConfig "sk-token") false
                  (Some (DiskLibrary
                           (Some (DiskLib "/home/u/~/prompts.yaml" false))))
                  (Some (GPT "sk-token" false)) Stdout false)
           None).
  reflexivity.
Defined.

(** X21.  On a context that [NewButterfish] returns, [CalculateEmbeddings]
    panics when the configuration has no token, since the client is then
    nil; with a token it is the answer of the GPT client of that token. *)
Theorem CalculateEmbeddings_panics_without_token
  (V : Type) (Embeddings : LLM -> list string -> V * option error)
  (m : machine) (config : FullConfig)
  (this : Butterfish) (err : option error) (content : list string) :
  fst (NewButterfish m config []) = Results (Some this, err) ->
  CalculateEmbeddings Embeddings this content
  = if is_empty (OpenAIToken (llmConfig config))
    then Panics nilDereference
    else Results (Embeddings (GPT (OpenAIToken (llmConfig config))
                                  (cfgVerbose (llmConfig config)))
                             content).
Proof.
  intros Hret.
  destruct (NewButterfish_inversion m config Hret)
    as (llm & lib & tr1 & tr2 & Hllm & _ & Hthis & _).
  destruct (initLLM_styled_client config [] Hllm) as (_ & _ & Hcase).
  subst this. unfold CalculateEmbeddings. cbn [ctxLLMClient].
  rewrite Hcase.
  destruct (is_empty (OpenAIToken (llmConfig config))); reflexivity.
Qed.

Lemma CalculateEmbeddings_panics_without_token_witness :
  CalculateEmbeddings (fun _ c => (map String.length c, @None error))
    (Bfish MakeButterfishConfig false
           (Some (DiskLibrary (Some (DiskLib "/home/u/" false))))
           None Stdout false)
    ["some text"%string]
  = if is_empty (OpenAIToken (llmConfig MakeButterfishConfig))
    then Panics nilDereference
    else Results
           ((fun _ c => (map String.length c, @None error))
              (GPT (OpenAIToken (llmConfig MakeButterfishConfig))
                   (cfgVerbose (llmConfig MakeButterfishConfig)))
              ["some text"%string]).
Proof.
  apply (@CalculateEmbeddings_panics_without_token
           (list nat) (fun _ c => (map String.length c, @None error))
           freshMachine MakeButterfishConfig
           (Bfish MakeButterfishConfig false
                  (Some (DiskLibrary (Some (DiskLib "/home/u/" false))))
                  None Stdout false)
           None ["some text"%string]).
  reflexivity.
Defined.

(** How [RunConsole] goes. *)
Lemma RunConsole_cases (m : machine) (config : FullConfig) :
  RunConsole m config []
  = let tr0 := [CallWithCancel; CallNewConsoleProgram] in
    match (if configuresAtOnce m then
             match Styles config with
             | Some _ => Some (tr0 ++ [CallSetStyles])
             | None => None
             end
           else Some tr0) with
    | None => (Panics nilDereference, tr0)
    | Some tr1 =>
        match initLLM_styled config tr1 with
        | (Panics v, tr2) => (Panics v, tr2)
        | (Results (_, Some e), tr2) => (Results (Some e), tr2)
        | (Results (llmClient, None), tr2) =>
            match initPromptLibrary m config (tr2 ++ [CallRunIPCServer]) with
            | (Panics v, tr3) => (Panics v, tr3)
            | (Results (_, Some e), tr3) => (Results (Some e), tr3)
            | (Results (promptLibrary, None), tr3) =>
                (Results None,
                 tr3 ++ [CallServerMultiplexer
                           (Bfish config true promptLibrary llmClient
                                  Console true)])
            end
        end
    end.
Proof.
  unfold RunConsole, func, andThen, call, result, did, deref, next.
  cbn [app].
  destruct (configuresAtOnce m); [destruct (Styles config)|]; cbn [app];
    try reflexivity;
    match goal with
    | |- context [initLLM_styled config ?t] =>
        destruct (initLLM_styled config t) as [[[llm [e|]]|v] tr2]
    end; try reflexivity;
    destruct (initPromptLibrary m config (tr2 ++ [CallRunIPCServer]))
      as [[[lib [e|]]|v] tr3]; reflexivity.
Qed.

(** Every case of a run of [RunConsole], by what the configuration and the
    machine hold. *)
Ltac RunConsole_by_cases m config :=
  rewrite RunConsole_cases; cbv zeta;
  destruct (configuresAtOnce m);
  destruct (Styles config) as [st|] eqn:Hst;
  rewrite ?initLLM_styled_initLLM; cbv zeta; unfold initLLM;
  destruct (is_empty (OpenAIToken (llmConfig config))) eqn:Htoken;
  destruct (LLMClient (llmConfig config)) as [[token verbose|n]|] eqn:Hclient;
  cbn [negb andb is_nil fst snd app]; rewrite ?Hst;
  rewrite ?initPromptLibrary_cases, ?Hst;
  try (destruct (cfgPromptLibrary config) as [l|] eqn:Hlib;
       [|cbv zeta;
         destruct (homedir_Expand m (PromptLibraryPath config))
           as [p [ex|]] eqn:Hexpand;
         [|rewrite NewDiskPromptLibrary_cases;
           destruct (LibraryFileExists m p) eqn:Hexists;
           [destruct (Load m p) as [el|] eqn:Hload|]]]);
  cbn [fst snd app].

(** X22.  When [RunConsole] returns an error the multiplexer has not run
    and the prompt library file has not been written.  Either the error is
    the one of [initLLM], and the IPC server was not started; or [initLLM]
    gave none, the error is about the prompt library, and the IPC server
    has been started. *)
Theorem RunConsole_error
  (m : machine) (config : FullConfig) (e : error) :
  fst (RunConsole m config []) = Results (Some e) ->
  let made := snd (RunConsole m config []) in
  (forall this, ~ In (CallServerMultiplexer this) made)
  /\ ~ In CallSave made
  /\ ((snd (initLLM (llmConfig config)) = Some e
       /\ ~ In CallRunIPCServer made)
      \/ (snd (initLLM (llmConfig config)) = None
          /\ In CallRunIPCServer made)).
Proof.
  unfold initLLM.
  RunConsole_by_cases m config;
    intros Hret; try discriminate; inversion Hret; subst;
    (split; [intros this; not_among|]);
    (split; [not_among|]);
    solve [left; split; [reflexivity|not_among]
          |right; split; [reflexivity|cbn [In]; tauto]].
Qed.

Lemma RunConsole_error_witness :
  let e := ErrorString "yaml: unmarshal errors" in
  let config := plainConfig "" in
  let made := snd (RunConsole brokenLibrary config []) in
  (forall this, ~ In (CallServerMultiplexer this) made)
  /\ ~ In CallSave made
  /\ ((snd (initLLM (llmConfig config)) = Some e
       /\ ~ In CallRunIPCServer made)
      \/ (snd (initLLM (llmConfig config)) = None
          /\ In CallRunIPCServer made)).
Proof.
  apply (@RunConsole_error brokenLibrary (plainConfig "")
           (ErrorString "yaml: unmarshal errors")).
  reflexivity.
Defined.

(** X23.  Without styles [RunConsole] never serves: it returns the error
    of [initLLM] or it panics, and the multiplexer is not run. *)
Theorem RunConsole_needs_styles
  (m : machine) (config : FullConfig) :
  Styles config = None ->
  fst (RunConsole m config []) <> Results None
  /\ (forall this,
        ~ In (CallServerMultiplexer this) (snd (RunConsole m config [])))
  /\ (LLMClient (llmConfig config) = None ->
      fst (RunConsole m config []) = Panics nilDereference).
Proof.
  intros Hnil.
  RunConsole_by_cases m config; try congruence;
    (split; [discriminate|]);
    (split; [intros this; not_among|]);
    intros Hc; (discriminate || reflexivity).
Qed.

Lemma RunConsole_needs_styles_witness :
  let config := FullCfg (Config false "sk-token" None) None None "" None in
  fst (RunConsole freshMachine config []) <> Results None
  /\ (forall this,
        ~ In (CallServerMultiplexer this)
             (snd (RunConsole freshMachine config [])))
  /\ (LLMClient (llmConfig config) = None ->
      fst (RunConsole freshMachine config []) = Panics nilDereference).
Proof.
  apply (@RunConsole_needs_styles freshMachine
           (FullCfg (Config false "sk-token" None) None None "" None)).
  reflexivity.
Defined.

(** ** The first use of the index on a new context *)

(** What the first call of [initVectorIndex] does, by the mode of the
    context. *)
Lemma initVectorIndex_first
  (Index : Type) (newIndex : Index) (setOutput : Index -> Index)
  (loadPaths : Index -> list string -> Index * option error)
  (verbose console : bool) (paths : list string) :
  let this := Ctx verbose console (@None Index) [] in
  let index := preparedIndex newIndex setOutput this in
  let made := CallNewIndex :: (if verbose then [CallSetOutput] else []) in
  initVectorIndex newIndex setOutput loadPaths this paths
  = if console then (None, Ctx verbose console (Some index) made)
    else (snd (loadPaths index (pathsOrCwd paths)),
          Ctx verbose console
              (Some (fst (loadPaths index (pathsOrCwd paths))))
              (made ++ [CallLoadPaths (pathsOrCwd paths)])).
Proof.
  unfold initVectorIndex, preparedIndex, pathsOrCwd.
  destruct verbose, console; cbn; try reflexivity;
    match goal with
    | |- context [loadPaths ?i ?p] => destruct (loadPaths i p) as [i' [e|]]
    end; reflexivity.
Qed.

(** X24.  On a context that [NewButterfish] returns, the first call of
    [initVectorIndex] makes the index and loads the paths it is given, the
    current directory when it is given none; it returns what [LoadPaths]
    returns and keeps the index also when that is an error. *)
Theorem NewButterfish_context_loads_on_first_use
  (Index : Type) (newIndex : Index) (setOutput : Index -> Index)
  (loadPaths : Index -> list string -> Index * option error)
  (m : machine) (config : FullConfig)
  (this : Butterfish) (err : option error) (paths : list string) :
  fst (NewButterfish m config []) = Results (Some this, err) ->
  let index := if cfgVerbose (llmConfig config) then setOutput newIndex
               else newIndex in
  let run := initVectorIndex newIndex setOutput loadPaths
                             (indexFields this) paths in
  fst run = snd (loadPaths index (pathsOrCwd paths))
  /\ VectorIndex (snd run) = Some (fst (loadPaths index (pathsOrCwd paths)))
  /\ calls (snd run)
     = CallNewIndex
         :: (if cfgVerbose (llmConfig config) then [CallSetOutput] else [])
         ++ [CallLoadPaths (pathsOrCwd paths)].
Proof.
  intros Hret.
  destruct (NewButterfish_inversion m config Hret)
    as (llm & lib & tr1 & tr2 & _ & _ & Hthis & _).
  subst this. unfold indexFields.
  cbn [ctxConfig ctxInConsoleMode].
  rewrite initVectorIndex_first. unfold preparedIndex. cbn [Verbose fst snd].
  repeat split; reflexivity.
Qed.

Lemma NewButterfish_context_loads_on_first_use_witness :
  let config := plainConfig "sk-token" in
  let index := if cfgVerbose (llmConfig config) then (fun i => i) []
               else @nil string in
  let run :=
    initVectorIndex [] (fun i => i) loadOrFail
      (indexFields
         (Bfish config false
            (Some (DiskLibrary
                     (Some (DiskLib "/home/u/~/prompts.yaml" false))))
            (Some (GPT "sk-token" false)) Stdout false)) [] in
  fst run = snd (loadOrFail index (pathsOrCwd []))
  /\ VectorIndex (snd run) = Some (fst (loadOrFail index (pathsOrCwd [])))
  /\ calls (snd run)
     = CallNewIndex
         :: (if cfgVerbose (llmConfig config) then [CallSetOutput] else [])
         ++ [CallLoadPaths (pathsOrCwd [])].
Proof.
  apply (@NewButterfish_context_loads_on_first_use
           (list string) [] (fun i => i) loadOrFail
           freshMachine (plainConfig "sk-token")
           (Bfish (plainConfig "sk-token") false
                  (Some (DiskLibrary
                           (Some (DiskLib "/home/u/~/prompts.yaml" false))))
                  (Some (GPT "sk-token" false)) Stdout false)
           None []).
  reflexivity.
Defined.

(** X25.  The context [RunConsole] hands to the multiplexer is in console
    mode, writes to the console, has the client [initLLM] gave and a
    client controller; the IPC server was started before.  On it the first
    call of [initVectorIndex] makes the index but loads nothing, whatever
    paths it is given, and returns no error. *)
Theorem RunConsole_context_loads_nothing
  (Index : Type) (newIndex : Index) (setOutput : Index -> Index)
  (loadPaths : Index -> list string -> Index * option error)
  (m : machine) (config : FullConfig)
  (this : Butterfish) (paths : list string) :
  In (CallServerMultiplexer this) (snd (RunConsole m config [])) ->
  let run := initVectorIndex newIndex setOutput loadPaths
                             (indexFields this) paths in
  fst (RunConsole m config []) = Results None
  /\ ctxConfig this = config
  /\ ctxInConsoleMode this = true
  /\ ctxOut this = Console
  /\ ctxClientController this = true
  /\ ctxLLMClient this = fst (initLLM (llmConfig config))
  /\ In CallRunIPCServer (snd (RunConsole m config []))
  /\ fst run = None
  /\ VectorIndex (snd run) <> None
  /\ forall p, ~ In (CallLoadPaths p) (calls (snd run)).
Proof.
  unfold initLLM.
  RunConsole_by_cases m config; intros Hin; cbn [In] in Hin;
    try (exfalso; intuition discriminate);
    repeat match type of Hin with
           | _ \/ _ => destruct Hin as [Hin|Hin]; try discriminate
           | False => destruct Hin
           end;
    inversion Hin; subst this; unfold indexFields;
    cbn [ctxConfig ctxInConsoleMode ctxOut ctxClientController ctxLLMClient];
    rewrite initVectorIndex_first; cbn [fst snd VectorIndex calls];
    repeat split; try reflexivity; try discriminate;
    try (cbn [In]; tauto);
    intros q; destruct (cfgVerbose (llmConfig config)); not_among.
Qed.

Lemma RunConsole_context_loads_nothing_witness :
  let config := plainConfig "" in
  let this :=
    Bfish config true
          (Some (DiskLibrary (Some (DiskLib "/home/u/~/prompts.yaml" false))))
          None Console true in
  let run := initVectorIndex [] (fun i => i) loadOrFail
                             (indexFields this) ["/nonexistent"%string] in
  fst (RunConsole freshMachine config []) = Results None
  /\ ctxConfig this = config
  /\ ctxInConsoleMode this = true
  /\ ctxOut this = Console
  /\ ctxClientController this = true
  /\ ctxLLMClient this = fst (initLLM (llmConfig config))
  /\ In CallRunIPCServer (snd (RunConsole freshMachine config []))
  /\ fst run = None
  /\ VectorIndex (snd run) <> None
  /\ forall p, ~ In (CallLoadPaths p) (calls (snd run)).
Proof.
  apply (@RunConsole_context_loads_nothing
           (list string) [] (fun i => i) loadOrFail
           freshMachine (plainConfig "")
           (Bfish (plainConfig "") true
                  (Some (DiskLibrary
                           (Some (DiskLib "/home/u/~/prompts.yaml" false))))
                  None Console true)
           ["/nonexistent"%string]).
  simpl. tauto.
Defined.

(** ** [ColorSchemeToStyles] *)

(** X26.  The styles take six of the ten colours of a scheme: two schemes
    that agree on [Foreground], [Error], [Color2], [Color4], [Color5] and
    [Grey] give the same styles, whatever their other colours.  Answers,
    highlights and summaries always share one style, questions and the
    prompt another. *)
Theorem ColorSchemeToStyles_reads_six_colours (a b : scheme.ColorScheme) :
  scheme.Foreground a = scheme.Foreground b ->
  scheme.Error a = scheme.Error b ->
  scheme.Color2 a = scheme.Color2 b ->
  scheme.Color4 a = scheme.Color4 b ->
  scheme.Color5 a = scheme.Color5 b ->
  scheme.Grey a = scheme.Grey b ->
  ColorSchemeToStyles a = ColorSchemeToStyles b
  /\ style.Answer (ColorSchemeToStyles a)
     = style.Highlight (ColorSchemeToStyles a)
  /\ style.Answer (ColorSchemeToStyles a)
     = style.Summarize (ColorSchemeToStyles a)
  /\ style.Question (ColorSchemeToStyles a)
     = style.Prompt (ColorSchemeToStyles a).
Proof.
  intros Hf He H2 H4 H5 Hg. unfold ColorSchemeToStyles.
  rewrite Hf, He, H2, H4, H5, Hg. cbn. repeat split; reflexivity.
Qed.

Lemma ColorSchemeToStyles_reads_six_colours_witness :
  let a := GruvboxDark in
  let b := scheme.Scheme "#ebdbb2" "#000000" "#fb4934" "#111111" "#fabd2f"
                         "#222222" "#d3869b" "#8ec07c" "#333333" "#928374" in
  ColorSchemeToStyles a = ColorSchemeToStyles b
  /\ style.Answer (ColorSchemeToStyles a)
     = style.Highlight (ColorSchemeToStyles a)
  /\ style.Answer (ColorSchemeToStyles a)
     = style.Summarize (ColorSchemeToStyles a)
  /\ style.Question (ColorSchemeToStyles a)
     = style.Prompt (ColorSchemeToStyles a).
Proof.
  apply (@ColorSchemeToStyles_reads_six_colours GruvboxDark
           (scheme.Scheme "#ebdbb2" "#000000" "#fb4934" "#111111" "#fabd2f"
                          "#222222" "#d3869b" "#8ec07c" "#333333" "#928374"));
    reflexivity.
Defined.
